(** * Olexi MCP server ([mcp_server.py])

    A shallow embedding of the tools, the resource and the diagnostic
    routes of the server, with the parts of the Python runtime they call
    ([str.encode], [urllib.parse], [json]), followed by the properties of
    the search orchestration and result normalisation layer. *)

From Stdlib Require Import List NArith ZArith Bool String Ascii Lia PrimFloat.
Import ListNotations.

Local Open Scope N_scope.

(** Python floats are binary64: a literal such as [0.3] denotes the
    nearest double, here as in the source. *)
Set Warnings "-inexact-float".

(* ================================================================== *)
(** * Part I: definitions *)
(* ================================================================== *)

(** ** Python text and exceptions *)

(** A Python [str] is the sequence of its Unicode code points. *)
Definition str := list N.

(** Literals: the code points of an ASCII literal of the source. *)
Definition txt (s : string) : str := map N_of_ascii (list_ascii_of_string s).

Definition str_eqb (a b : str) : bool :=
  if list_eq_dec N.eq_dec a b then true else false.

(** The exceptions that can leave the modelled code.  [External] stands
    for whatever the scraper raises on its own (network failure,
    unexpected response shape); the message and position of a
    [JSONDecodeError] are left out. *)
Inductive exn :=
| AttributeError (attribute : str)
| ValidationError (fields : list str)
| UnicodeEncodeError (position : nat) (codepoint : N)
| JSONDecodeError
| External (detail : str).

Inductive result (A : Type) :=
| Ok (a : A)
| Raise (e : exn).
Arguments Ok {A} a.
Arguments Raise {A} e.

Definition rbind {A B} (c : result A) (k : A -> result B) : result B :=
  match c with
  | Ok a => k a
  | Raise e => Raise e
  end.

Declare Scope result_scope.
Delimit Scope result_scope with result.
Notation "x <- c ;; k" := (rbind c (fun x => k))
  (at level 61, c at next level, right associativity) : result_scope.

(** ** Values carried by the scraper's records and by the catalog *)

(** A structured URL value (the scraper's URL type).

    Modelled from the spec: the scraper module is not part of the
    sources; its URL type is only known to be "coercible to text", so a
    URL object is represented by the text [str()] converts it to. *)
Record Url := { url_text : str }.

(** Attribute values of a raw result record: the values the
    specification speaks of, [None], text and a URL object.  Other
    Python values (bytes, which a [str] field would decode, numbers,
    ...) are not represented: the properties below speak of records
    made of these three kinds of values. *)
Inductive pyval :=
| PyNone
| PyStr (s : str)
| PyUrl (u : Url).

(** Python's [str(v)]. *)
Definition py_str (v : pyval) : str :=
  match v with
  | PyNone => txt "None"
  | PyStr s => s
  | PyUrl u => url_text u
  end.

(** A raw result record, as returned by the scraper: an object that the
    server reads through its attributes [title], [url] and [metadata].
    [None] in a field of this record means the object has no such
    attribute; [Some PyNone] means the attribute is there and holds
    Python's [None]. *)
Record RawResultRecord := {
  raw_title : option pyval;
  raw_url : option pyval;
  raw_metadata : option pyval
}.

Definition getattr (name : str) (field : option pyval) : result pyval :=
  match field with
  | Some v => Ok v
  | None => Raise (AttributeError name)
  end.

(** JSON-shaped Python values: what the catalog holds and what the
    diagnostic routes answer.  A [dict] keeps its items in insertion
    order. *)
#[warnings="-register-all"]
Inductive json :=
| JNull
| JBool (b : bool)
| JStr (s : str)
| JList (items : list json)
| JDict (members : list (str * json)).

(** [DATABASE_TOOLS_LIST : List[Dict]], imported from [database_map].
    The module is outside the sources: the catalog is whatever list of
    dictionaries the process holds (see [world]). *)
Definition Catalog := list (list (str * json)).

(** ** class SearchResultItem(BaseModel) *)

Record SearchResultItem := {
  title : str;
  url : str;
  metadata : option str
}.

(** Validation of a [str] field: text is accepted, anything else is an
    error for that field. *)
Definition validate_str (v : pyval) : option str :=
  match v with
  | PyStr s => Some s
  | _ => None
  end.

(** Validation of an [Optional[str]] field. *)
Definition validate_optional_str (v : pyval) : option (option str) :=
  match v with
  | PyNone => Some None
  | PyStr s => Some (Some s)
  | _ => None
  end.

Definition field_error {A} (name : string) (v : option A) : list str :=
  match v with
  | Some _ => []
  | None => [txt name]
  end.

(** [SearchResultItem(title=..., url=..., metadata=...)]: every field is
    validated, and one [ValidationError] reports all the fields that
    failed. *)
Definition SearchResultItem_init (title_v url_v metadata_v : pyval)
  : result SearchResultItem :=
  match validate_str title_v, validate_str url_v,
        validate_optional_str metadata_v with
  | Some t, Some u, Some m => Ok {| title := t; url := u; metadata := m |}
  | t, u, m =>
      Raise (ValidationError
               (field_error "title" t ++ field_error "url" u
                ++ field_error "metadata" m))
  end.

(** ** The process state and the tool monad *)

(** What a tool invocation does to the outside: the messages and
    progress events it hands to the MCP context, and its calls of the
    scraper. *)
Inductive action :=
| Info (message : str)
| ReportProgress (progress : float) (total : float) (message : str)
| Scrape (query : str) (databases : list str).

(** The process: the module global [DATABASE_TOOLS_LIST] and the
    actions performed so far, oldest first. *)
Record world := {
  catalog : Catalog;
  log : list action
}.

Definition M (A : Type) := world -> result A * world.

Definition ret {A} (a : A) : M A := fun w => (Ok a, w).

Definition bind {A B} (c : M A) (k : A -> M B) : M B :=
  fun w =>
    match c w with
    | (Ok a, w') => k a w'
    | (Raise e, w') => (Raise e, w')
    end.

Definition lift {A} (r : result A) : M A := fun w => (r, w).

Definition emit (a : action) : M unit :=
  fun w => (Ok tt, {| catalog := catalog w; log := log w ++ [a] |}).

Declare Scope tool_scope.
Delimit Scope tool_scope with tool.
Notation "x <- c ;; k" := (bind c (fun x => k))
  (at level 61, c at next level, right associativity) : tool_scope.
Notation "c ;; k" := (bind c (fun _ => k))
  (at level 61, right associativity) : tool_scope.

(** [ctx.info] and [ctx.report_progress]. *)
Definition ctx_info (message : str) : M unit := emit (Info message).

Definition ctx_report_progress (progress total : float) (message : str)
  : M unit :=
  emit (ReportProgress progress total message).

(** ** [str.encode('utf-8')] and [bytes.decode('utf-8', 'replace')] *)

Module Utf8.

(** Bytes are numbers below 256. *)
Definition byte := N.

Definition is_surrogate (c : N) : bool := (0xD800 <=? c) && (c <=? 0xDFFF).

(** A Unicode scalar value: a code point that is not a surrogate.  Text
    made of scalar values is what UTF-8 can encode. *)
Definition is_scalar (c : N) : bool := (c <? 0x110000) && negb (is_surrogate c).

Definition encode_char (c : N) : option (list byte) :=
  if c <? 0x80 then Some [c]
  else if c <? 0x800 then Some [0xC0 + c / 64; 0x80 + c mod 64]
  else if c <? 0x10000 then
    if is_surrogate c then None
    else Some [0xE0 + c / 4096; 0x80 + (c / 64) mod 64; 0x80 + c mod 64]
  else if c <? 0x110000 then
    Some [0xF0 + c / 262144; 0x80 + (c / 4096) mod 64;
          0x80 + (c / 64) mod 64; 0x80 + c mod 64]
  else None.

(** [s.encode('utf-8', 'strict')]: the first code point that cannot be
    encoded raises [UnicodeEncodeError]. *)
Fixpoint encode_from (position : nat) (s : str) : result (list byte) :=
  match s with
  | [] => Ok []
  | c :: rest =>
      match encode_char c with
      | None => Raise (UnicodeEncodeError position c)
      | Some bs =>
          match encode_from (S position) rest with
          | Ok tail => Ok (bs ++ tail)
          | Raise e => Raise e
          end
      end
  end.

Definition encode (s : str) : result (list byte) := encode_from 0 s.

Definition is_continuation (b : byte) : bool := (0x80 <=? b) && (b <=? 0xBF).

Definition in_range (lo hi b : byte) : bool := (lo <=? b) && (b <=? hi).

(** U+FFFD, what the 'replace' error handler puts for an ill-formed
    sequence. *)
Definition replacement : N := 0xFFFD.

(** The range the second byte of a sequence must lie in, by lead byte
    (the well-formed byte sequences of the Unicode standard). *)
Definition second_range (b0 : byte) : byte * byte :=
  if b0 =? 0xE0 then (0xA0, 0xBF)
  else if b0 =? 0xED then (0x80, 0x9F)
  else if b0 =? 0xF0 then (0x90, 0xBF)
  else if b0 =? 0xF4 then (0x80, 0x8F)
  else (0x80, 0xBF).

Definition second_ok (b0 b1 : byte) : bool :=
  let (lo, hi) := second_range b0 in in_range lo hi b1.

(** One step of the decoder: the code point read (or the replacement
    character standing for the maximal ill-formed prefix) and the bytes
    that remain. *)
Definition decode_step (b0 : byte) (rest : list byte) : N * list byte :=
  if b0 <? 0x80 then (b0, rest)
  else if in_range 0xC2 0xDF b0 then
    match rest with
    | b1 :: r1 =>
        if is_continuation b1 then ((b0 - 0xC0) * 64 + (b1 - 0x80), r1)
        else (replacement, rest)
    | [] => (replacement, rest)
    end
  else if in_range 0xE0 0xEF b0 then
    match rest with
    | b1 :: r1 =>
        if second_ok b0 b1 then
          match r1 with
          | b2 :: r2 =>
              if is_continuation b2 then
                ((b0 - 0xE0) * 4096 + (b1 - 0x80) * 64 + (b2 - 0x80), r2)
              else (replacement, r1)
          | [] => (replacement, r1)
          end
        else (replacement, rest)
    | [] => (replacement, rest)
    end
  else if in_range 0xF0 0xF4 b0 then
    match rest with
    | b1 :: r1 =>
        if second_ok b0 b1 then
          match r1 with
          | b2 :: r2 =>
              if is_continuation b2 then
                match r2 with
                | b3 :: r3 =>
                    if is_continuation b3 then
                      ((b0 - 0xF0) * 262144 + (b1 - 0x80) * 4096
                       + (b2 - 0x80) * 64 + (b3 - 0x80), r3)
                    else (replacement, r2)
                | [] => (replacement, r2)
                end
              else (replacement, r1)
          | [] => (replacement, r1)
          end
        else (replacement, rest)
    | [] => (replacement, rest)
    end
  else (replacement, rest).

(** [bs.decode('utf-8', 'replace')].  Each step consumes at least the
    lead byte, so the length of the input is fuel enough. *)
Fixpoint decode_fuel (fuel : nat) (bs : list byte) : str :=
  match fuel, bs with
  | _, [] => []
  | O, _ => []
  | S fuel', b0 :: rest =>
      let (c, remaining) := decode_step b0 rest in
      c :: decode_fuel fuel' remaining
  end.

Definition decode (bs : list byte) : str := decode_fuel (List.length bs) bs.

End Utf8.

(** ** [urllib.parse]: [urlencode], [quote_plus], [unquote_plus],
       [parse_qsl], [urlsplit] *)

Module Urllib.

Definition PERCENT : N := Eval cbv in N_of_ascii "%".
Definition PLUS : N := Eval cbv in N_of_ascii "+".
Definition SPACE : N := Eval cbv in N_of_ascii " ".
Definition AMPERSAND : N := Eval cbv in N_of_ascii "&".
Definition EQUALS : N := Eval cbv in N_of_ascii "=".
Definition QUESTION : N := Eval cbv in N_of_ascii "?".
Definition HASH : N := Eval cbv in N_of_ascii "#".

Definition contains (c : N) (s : str) : bool := existsb (N.eqb c) s.

(** [s.replace(old, new)] for single characters. *)
Definition replace_char (old new : N) (s : str) : str :=
  map (fun c => if c =? old then new else c) s.

(** [sep.join(parts)]. *)
Fixpoint join (sep : str) (parts : list str) : str :=
  match parts with
  | [] => []
  | [p] => p
  | p :: rest => p ++ sep ++ join sep rest
  end.

(** [_ALWAYS_SAFE]: letters, digits and [_.-~]. *)
Definition always_safe (b : N) : bool :=
  Utf8.in_range 65 90 b || Utf8.in_range 97 122 b || Utf8.in_range 48 57 b
  || (b =? 95) || (b =? 46) || (b =? 45) || (b =? 126).

(** One digit of ['%{:02X}'.format(b)]. *)
Definition hex_upper (d : N) : N := if d <? 10 then 48 + d else 55 + d.

(** [_Quoter.__missing__]: a safe byte stands for itself, any other byte
    becomes [%XX]. *)
Definition quoter (safe : list N) (b : N) : str :=
  if always_safe b || contains b safe then [b]
  else [PERCENT; hex_upper (b / 16); hex_upper (b mod 16)].

Definition quote_from_bytes (bs : list N) (safe : list N) : str :=
  flat_map (quoter safe) bs.

(** [quote(string, safe)] on a [str]: UTF-8 with strict errors, then
    [quote_from_bytes]. *)
Definition quote (s : str) (safe : list N) : result str :=
  match s with
  | [] => Ok []
  | _ => (bs <- Utf8.encode s ;; Ok (quote_from_bytes bs safe))%result
  end.

(** [quote_plus(string, safe='')]. *)
Definition quote_plus (s : str) : result str :=
  if negb (contains SPACE s) then quote s []
  else (q <- quote s [SPACE] ;; Ok (replace_char SPACE PLUS q))%result.

(** The loop of [urlencode] over a sequence of two-element tuples of
    [str]: [l.append(k + '=' + v)]. *)
Fixpoint urlencode_items (query : list (str * str)) : result (list str) :=
  match query with
  | [] => Ok []
  | (k, v) :: rest =>
      (k' <- quote_plus k ;;
       v' <- quote_plus v ;;
       l <- urlencode_items rest ;;
       Ok ((k' ++ [EQUALS] ++ v') :: l))%result
  end.

(** [urlencode(query)]: ['&'.join(l)]. *)
Definition urlencode (query : list (str * str)) : result str :=
  (l <- urlencode_items query ;; Ok (join [AMPERSAND] l))%result.

(** The value of a hexadecimal digit, in either case ([_hextobyte]). *)
Definition hex_value (c : N) : option N :=
  if Utf8.in_range 48 57 c then Some (c - 48)
  else if Utf8.in_range 65 70 c then Some (c - 55)
  else if Utf8.in_range 97 102 c then Some (c - 87)
  else None.

(** [unquote_to_bytes]: [%XX] becomes a byte; a [%] that two hex digits
    do not follow stays as it is. *)
Fixpoint unquote_to_bytes (s : list N) : list N :=
  match s with
  | [] => []
  | c :: rest =>
      if c =? PERCENT then
        match rest with
        | h :: l :: rest' =>
            match hex_value h, hex_value l with
            | Some a, Some b => (16 * a + b) :: unquote_to_bytes rest'
            | _, _ => c :: unquote_to_bytes rest
            end
        | _ => c :: unquote_to_bytes rest
        end
      else c :: unquote_to_bytes rest
  end.

(** An ASCII run of the string ([_asciire]), unquoted and decoded. *)
Definition unquote_run (run_reversed : list N) : str :=
  match run_reversed with
  | [] => []
  | _ => Utf8.decode (unquote_to_bytes (rev run_reversed))
  end.

(** The parts of [unquote]: runs of ASCII characters are unquoted and
    decoded, the characters between them are kept. *)
Fixpoint unquote_parts (s : str) (run_reversed : list N) : str :=
  match s with
  | [] => unquote_run run_reversed
  | c :: rest =>
      if c <? 128 then unquote_parts rest (c :: run_reversed)
      else unquote_run run_reversed ++ c :: unquote_parts rest []
  end.

(** [unquote(string, encoding='utf-8', errors='replace')]. *)
Definition unquote (s : str) : str :=
  if negb (contains PERCENT s) then s else unquote_parts s [].

(** [unquote_plus(string)]. *)
Definition unquote_plus (s : str) : str :=
  unquote (replace_char PLUS SPACE s).

(** [s.split(sep)] for a single character: never empty. *)
Fixpoint split (sep : N) (s : str) : list str :=
  match s with
  | [] => [[]]
  | c :: rest =>
      if c =? sep then [] :: split sep rest
      else
        match split sep rest with
        | [] => [[c]]
        | first :: others => (c :: first) :: others
        end
  end.

(** [s.split(sep, 1)]: the text before the first [sep], and the text
    after it when there is one. *)
Fixpoint split_once (sep : N) (s : str) : str * option str :=
  match s with
  | [] => ([], None)
  | c :: rest =>
      if c =? sep then ([], Some rest)
      else let (before, after) := split_once sep rest in (c :: before, after)
  end.

(** [parse_qsl(qs, keep_blank_values=True)]: the name and value pairs of
    a query string, decoded. *)
Definition parse_qsl (qs : str) : list (str * str) :=
  match qs with
  | [] => []
  | _ =>
      flat_map
        (fun name_value =>
           match name_value with
           | [] => []
           | _ =>
               let (name, value) := split_once EQUALS name_value in
               [(unquote_plus name,
                 unquote_plus (match value with Some v => v | None => [] end))]
           end)
        (split AMPERSAND qs)
  end.

(** [urlsplit(url).query]: what follows the first [?], the fragment
    taken off. *)
Definition urlsplit_query (url : str) : str :=
  match snd (split_once QUESTION (fst (split_once HASH url))) with
  | Some q => q
  | None => []
  end.

(** *** URI syntax (RFC 3986) *)

Definition is_alpha (c : N) : bool :=
  Utf8.in_range 65 90 c || Utf8.in_range 97 122 c.

Definition is_digit (c : N) : bool := Utf8.in_range 48 57 c.

Definition is_unreserved (c : N) : bool :=
  is_alpha c || is_digit c || (c =? 45) || (c =? 46) || (c =? 95) || (c =? 126).

(** [sub-delims]: [!$&'()*+,;=]. *)
Definition is_sub_delim (c : N) : bool :=
  existsb (N.eqb c) [33; 36; 38; 39; 40; 41; 42; 43; 44; 59; 61].

Definition is_hexdig (c : N) : bool :=
  match hex_value c with Some _ => true | None => false end.

(** A run of characters each accepted by [allowed], or of
    percent-encoded bytes. *)
Fixpoint chars_ok (allowed : N -> bool) (s : str) : bool :=
  match s with
  | [] => true
  | c :: rest =>
      if c =? PERCENT then
        match rest with
        | h :: l :: rest' => is_hexdig h && is_hexdig l && chars_ok allowed rest'
        | _ => false
        end
      else allowed c && chars_ok allowed rest
  end.

(** [pchar] without [pct-encoded]. *)
Definition is_pchar (c : N) : bool :=
  is_unreserved c || is_sub_delim c || (c =? 58) || (c =? 64).

Definition is_scheme_char (c : N) : bool :=
  is_alpha c || is_digit c || (c =? 43) || (c =? 45) || (c =? 46).

Definition scheme_ok (s : str) : bool :=
  match s with
  | [] => false
  | c :: rest => is_alpha c && forallb is_scheme_char rest
  end.

(** [scheme "://" authority path-abempty [ "?" query ]], no fragment. *)
Definition uri_ok (u : str) : bool :=
  match split_once 58 u with
  | (scheme, Some (47 :: 47 :: hier)) =>
      let (before_query, query) := split_once QUESTION hier in
      let (authority, path) := split_once 47 before_query in
      scheme_ok scheme
      && chars_ok (fun c => is_unreserved c || is_sub_delim c || (c =? 58) || (c =? 64))
           authority
      && chars_ok (fun c => is_pchar c || (c =? 47))
           (match path with Some p => p | None => [] end)
      && chars_ok (fun c => is_pchar c || (c =? 47) || (c =? QUESTION))
           (match query with Some q => q | None => [] end)
  | _ => false
  end.

End Urllib.

(** ** [json.dumps(obj, indent=2)] and [json.loads] *)

Module Json.

(** One digit of ['{0:04x}'.format(n)]. *)
Definition hex_lower (d : N) : N := if d <? 10 then 48 + d else 87 + d.

Definition hex4 (n : N) : str :=
  [hex_lower ((n / 4096) mod 16); hex_lower ((n / 256) mod 16);
   hex_lower ((n / 16) mod 16); hex_lower (n mod 16)].

(** [\uXXXX]. *)
Definition escape_u (n : N) : str := [92; 117] ++ hex4 n.

(** The replacement of one character by [py_encode_basestring_ascii]:
    the short escapes, printable ASCII as it is, and [\uXXXX] (a
    surrogate pair above the basic plane) for everything else. *)
Definition escape_char (c : N) : str :=
  if c =? 34 then [92; 34]
  else if c =? 92 then [92; 92]
  else if c =? 10 then [92; 110]
  else if c =? 13 then [92; 114]
  else if c =? 9 then [92; 116]
  else if c =? 12 then [92; 102]
  else if c =? 8 then [92; 98]
  else if Utf8.in_range 32 126 c then [c]
  else if c <? 0x10000 then escape_u c
  else
    let n := c - 0x10000 in
    escape_u (0xD800 + (n / 1024) mod 1024) ++ escape_u (0xDC00 + n mod 1024).

Definition encode_basestring_ascii (s : str) : str :=
  [34] ++ flat_map escape_char s ++ [34].

(** ['\n' + ' ' * (2 * level)]. *)
Definition newline_indent (level : nat) : str := 10 :: repeat 32 (2 * level).

(** [_iterencode] with [indent=2], [ensure_ascii=True] and the
    separators [','] and [': '], at the given indentation level. *)
Fixpoint iterencode (level : nat) (o : json) : str :=
  match o with
  | JNull => txt "null"
  | JBool true => txt "true"
  | JBool false => txt "false"
  | JStr s => encode_basestring_ascii s
  | JList [] => txt "[]"
  | JList items =>
      [91] ++ newline_indent (S level)
      ++ Urllib.join (44 :: newline_indent (S level))
           (map (iterencode (S level)) items)
      ++ newline_indent level ++ [93]
  | JDict [] => txt "{}"
  | JDict members =>
      [123] ++ newline_indent (S level)
      ++ Urllib.join (44 :: newline_indent (S level))
           (map (fun member =>
                   encode_basestring_ascii (fst member) ++ [58; 32]
                   ++ iterencode (S level) (snd member))
              members)
      ++ newline_indent level ++ [125]
  end.

Definition dumps (o : json) : str := iterencode 0 o.

(** *** The decoder *)

Definition is_whitespace (c : N) : bool :=
  (c =? 32) || (c =? 9) || (c =? 10) || (c =? 13).

Fixpoint skip_whitespace (s : list N) : list N :=
  match s with
  | c :: rest => if is_whitespace c then skip_whitespace rest else s
  | [] => []
  end.

(** [BACKSLASH]: the character a short escape stands for. *)
Definition backslash (esc : N) : option N :=
  if esc =? 34 then Some 34
  else if esc =? 92 then Some 92
  else if esc =? 47 then Some 47
  else if esc =? 98 then Some 8
  else if esc =? 102 then Some 12
  else if esc =? 110 then Some 10
  else if esc =? 114 then Some 13
  else if esc =? 116 then Some 9
  else None.

(** [_decode_uXXXX]: four hexadecimal digits. *)
Definition decode_uXXXX (s : list N) : option (N * list N) :=
  match s with
  | a :: b :: c :: d :: rest =>
      match Urllib.hex_value a, Urllib.hex_value b,
            Urllib.hex_value c, Urllib.hex_value d with
      | Some x3, Some x2, Some x1, Some x0 =>
          Some (((x3 * 16 + x2) * 16 + x1) * 16 + x0, rest)
      | _, _, _, _ => None
      end
  | _ => None
  end.

(** [s[idx:idx + 1] == c]: what follows the character. *)
Definition expect (c : N) (s : list N) : option (list N) :=
  match s with
  | d :: rest => if d =? c then Some rest else None
  | [] => None
  end.

(** [py_scanstring] (strict), started after the opening quote: the text
    up to the closing quote, and what follows it.  A high surrogate
    escape followed by a low surrogate escape is one character. *)
Fixpoint scanstring (fuel : nat) (s : list N) : option (str * list N) :=
  match fuel with
  | O => None
  | S fuel' =>
      match s with
      | [] => None
      | c :: r =>
          if c =? 34 then Some ([], r)
          else if c =? 92 then
            match r with
            | [] => None
            | esc :: r1 =>
                if esc =? 117 then
                  match decode_uXXXX r1 with
                  | None => None
                  | Some (uni, r2) =>
                      let joined :=
                        if Utf8.in_range 0xD800 0xDBFF uni then
                          match expect 92 r2 with
                          | None => Some (uni, r2)
                          | Some r2' =>
                              match expect 117 r2' with
                              | None => Some (uni, r2)
                              | Some r3 =>
                                  match decode_uXXXX r3 with
                                  | None => None
                                  | Some (uni2, r4) =>
                                      if Utf8.in_range 0xDC00 0xDFFF uni2 then
                                        Some (0x10000 + (uni - 0xD800) * 1024
                                              + (uni2 - 0xDC00), r4)
                                      else Some (uni, r2)
                                  end
                              end
                          end
                        else Some (uni, r2) in
                      match joined with
                      | None => None
                      | Some (ch, r5) =>
                          match scanstring fuel' r5 with
                          | Some (tail, r6) => Some (ch :: tail, r6)
                          | None => None
                          end
                      end
                  end
                else
                  match backslash esc with
                  | None => None
                  | Some ch =>
                      match scanstring fuel' r1 with
                      | Some (tail, r6) => Some (ch :: tail, r6)
                      | None => None
                      end
                  end
            end
          else if c <? 32 then None
          else
            match scanstring fuel' r with
            | Some (tail, r6) => Some (c :: tail, r6)
            | None => None
            end
      end
  end.

(** [s[idx:idx + len(word)] == word]: what follows the word. *)
Fixpoint strip_prefix (word s : list N) : option (list N) :=
  match word, s with
  | [], _ => Some s
  | w :: word', c :: s' => if w =? c then strip_prefix word' s' else None
  | _ :: _, [] => None
  end.

(** [dict(pairs)]: a later value for a key replaces the earlier one,
    where the key first stood. *)
Fixpoint dict_set (k : str) (v : json) (d : list (str * json))
  : list (str * json) :=
  match d with
  | [] => [(k, v)]
  | (k', v') :: rest =>
      if str_eqb k k' then (k, v) :: rest else (k', v') :: dict_set k v rest
  end.

Definition dict_of_pairs (pairs : list (str * json)) : list (str * json) :=
  fold_left (fun d kv => dict_set (fst kv) (snd kv) d) pairs [].

(** [scan_once], [JSONArray] and [JSONObject].  Numbers and the
    constants [NaN] and [Infinity] are not among the modelled values: a
    document that holds one is refused.  Every call consumes input, so
    the length of the document bounds the fuel. *)
Fixpoint scan_once (fuel : nat) (s : list N) : option (json * list N) :=
  match fuel with
  | O => None
  | S fuel' =>
      match s with
      | [] => None
      | c :: r =>
          if c =? 34 then
            match scanstring (List.length r) r with
            | Some (text, r') => Some (JStr text, r')
            | None => None
            end
          else if c =? 123 then
            let r1 := skip_whitespace r in
            match expect 125 r1 with
            | Some r' => Some (JDict [], r')
            | None =>
                match expect 34 r1 with
                | Some r' =>
                    match object_members fuel' r' with
                    | Some (pairs, r'') => Some (JDict (dict_of_pairs pairs), r'')
                    | None => None
                    end
                | None => None
                end
            end
          else if c =? 91 then
            let r1 := skip_whitespace r in
            match expect 93 r1 with
            | Some r' => Some (JList [], r')
            | None =>
                match array_items fuel' r1 with
                | Some (values, r'') => Some (JList values, r'')
                | None => None
                end
            end
          else
            match strip_prefix (txt "null") s with
            | Some r' => Some (JNull, r')
            | None =>
                match strip_prefix (txt "true") s with
                | Some r' => Some (JBool true, r')
                | None =>
                    match strip_prefix (txt "false") s with
                    | Some r' => Some (JBool false, r')
                    | None => None
                    end
                end
            end
      end
  end

(** The loop of [JSONArray], at the start of a value. *)
with array_items (fuel : nat) (s : list N) : option (list json * list N) :=
  match fuel with
  | O => None
  | S fuel' =>
      match scan_once fuel' s with
      | None => None
      | Some (value, r) =>
          let r1 := skip_whitespace r in
          match expect 93 r1 with
          | Some r' => Some ([value], r')
          | None =>
              match expect 44 r1 with
              | Some r' =>
                  match array_items fuel' (skip_whitespace r') with
                  | Some (values, r'') => Some (value :: values, r'')
                  | None => None
                  end
              | None => None
              end
          end
      end
  end

(** The loop of [JSONObject], after the opening quote of a key. *)
with object_members (fuel : nat) (s : list N)
  : option (list (str * json) * list N) :=
  match fuel with
  | O => None
  | S fuel' =>
      match scanstring (List.length s) s with
      | None => None
      | Some (key, r) =>
          match expect 58 (skip_whitespace r) with
          | None => None
          | Some r' =>
              match scan_once fuel' (skip_whitespace r') with
              | None => None
              | Some (value, r'') =>
                  let r1 := skip_whitespace r'' in
                  match expect 125 r1 with
                  | Some r3 => Some ([(key, value)], r3)
                  | None =>
                      match expect 44 r1 with
                      | None => None
                      | Some r3 =>
                          match expect 34 (skip_whitespace r3) with
                          | None => None
                          | Some r4 =>
                              match object_members fuel' r4 with
                              | Some (pairs, r5) =>
                                  Some ((key, value) :: pairs, r5)
                              | None => None
                              end
                          end
                      end
                  end
              end
          end
      end
  end.

(** [json.loads(s)] on a [str]: a byte order mark is refused, white
    space may surround the value, nothing else may follow it. *)
Definition loads (s : str) : result json :=
  if match s with c :: _ => c =? 0xFEFF | [] => false end
  then Raise JSONDecodeError
  else
    match scan_once (S (List.length s)) (skip_whitespace s) with
    | Some (value, r) =>
        match skip_whitespace r with
        | [] => Ok value
        | _ => Raise JSONDecodeError
        end
    | None => Raise JSONDecodeError
    end.

End Json.

(** ** The server *)

(** [mcp = FastMCP("Olexi MCP Server")]: only the name is read. *)
Record FastMCP := { name : str }.

Definition mcp : FastMCP := {| name := txt "Olexi MCP Server" |}.

(** A Starlette request, as far as a route could read it. *)
Record Request := {
  request_method : str;
  request_path : str;
  request_headers : list (str * str);
  request_body : list N
}.

(** [JSONResponse(content)]: status 200 and the content, rendered as
    JSON by the framework. *)
Record JSONResponse := {
  status_code : N;
  content : json
}.

Definition JSONResponse_init (payload : json) : JSONResponse :=
  {| status_code := 200; content := payload |}.

(** The Python list [DATABASE_TOOLS_LIST] as a JSON-shaped value. *)
Definition catalog_value (c : Catalog) : json := JList (map JDict c).

(** A [for] loop over a list that updates a local variable and may
    raise. *)
Fixpoint for_each {A S : Type} (items : list A) (body : A -> S -> result S)
    (s : S) : result S :=
  match items with
  | [] => Ok s
  | item :: rest =>
      match body item s with
      | Ok s' => for_each rest body s'
      | Raise e => Raise e
      end
  end.

(** [build_search_url(query, databases)]. *)
Definition build_search_url (query : str) (databases : list str) : result str :=
  let params :=
    [(txt "query", query); (txt "method", txt "boolean"); (txt "meta", txt "/au")] in
  let params :=
    fold_left (fun params db_code => params ++ [(txt "mask_path", db_code)])
      databases params in
  (encoded <- Urllib.urlencode params ;;
   Ok (txt "https://www.austlii.edu.au/cgi-bin/sinosrch.cgi?" ++ encoded))%result.

Section Server.

(** [from austlii_scraper import search_austlii as scrape]: the scraper
    is outside the sources; it answers a query with raw records or
    raises. *)
Variable scrape : str -> list str -> result (list RawResultRecord).

Definition call_scrape (query : str) (databases : list str)
  : M (list RawResultRecord) :=
  fun w =>
    (scrape query databases,
     {| catalog := catalog w; log := log w ++ [Scrape query databases] |}).

(** [list_databases_resource()]: [json.dumps(DATABASE_TOOLS_LIST, indent=2)]. *)
Definition list_databases_resource : M str :=
  fun w => (Ok (Json.dumps (catalog_value (catalog w))), w).

(** [list_databases()]: [return DATABASE_TOOLS_LIST]. *)
Definition list_databases : M Catalog :=
  fun w => (Ok (catalog w), w).

(** [search_austlii(query, databases)]. *)
Definition search_austlii (query : str) (databases : list str)
  : M (list SearchResultItem) :=
  (results <- call_scrape query databases ;;
   lift
     (for_each results
        (fun item output =>
           (title_v <- getattr (txt "title") (raw_title item) ;;
            url_v <- getattr (txt "url") (raw_url item) ;;
            metadata_v <- getattr (txt "metadata") (raw_metadata item) ;;
            model <- SearchResultItem_init title_v (PyStr (py_str url_v))
                       metadata_v ;;
            Ok (output ++ [model]))%result)
        []))%tool.

(** [search_with_progress(query, databases, ctx)]. *)
Definition search_with_progress (query : str) (databases : list str)
  : M (list SearchResultItem) :=
  (ctx_info (txt "Starting AustLII search...") ;;
   ctx_report_progress 0.3 1.0 (txt "Scraping") ;;
   results <- call_scrape query databases ;;
   ctx_report_progress 0.9 1.0 (txt "Packaging") ;;
   out <- lift
     (for_each results
        (fun item out =>
           (title_v <- getattr (txt "title") (raw_title item) ;;
            url_v <- getattr (txt "url") (raw_url item) ;;
            metadata_v <- getattr (txt "metadata") (raw_metadata item) ;;
            model <- SearchResultItem_init title_v (PyStr (py_str url_v))
                       metadata_v ;;
            Ok (out ++ [model]))%result)
        []) ;;
   ctx_report_progress 1.0 1.0 (txt "Done") ;;
   ret out)%tool.

(** [mcp_health(request)]. *)
Definition mcp_health (request : Request) : M JSONResponse :=
  ret (JSONResponse_init
         (JDict [(txt "status", JStr (txt "ok"));
                 (txt "name", JStr (name mcp));
                 (txt "transport", JStr (txt "streamable-http"))])).

(** [mcp_info(request)]. *)
Definition mcp_info (request : Request) : M JSONResponse :=
  ret (JSONResponse_init
         (JDict [(txt "message", JStr (txt "Olexi MCP Streamable HTTP endpoint"));
                 (txt "health", JStr (txt "/mcp/health"));
                 (txt "transport", JStr (txt "streamable-http"));
                 (txt "hint",
                  JStr (txt "Your MCP host should POST to /mcp for the protocol handshake."))])).

(** *** What a client can ask of the process *)

Inductive invocation :=
| ReadDatabasesResource
| CallListDatabases
| CallSearchAustlii (query : str) (databases : list str)
| CallBuildSearchUrl (query : str) (databases : list str)
| CallSearchWithProgress (query : str) (databases : list str)
| GetHealth (request : Request)
| GetInfo (request : Request).

Inductive response :=
| TextResponse (text : str)
| CatalogResponse (records : Catalog)
| ItemsResponse (items : list SearchResultItem)
| HttpResponse (r : JSONResponse).

Definition fmap {A B} (f : A -> B) (c : M A) : M B :=
  (x <- c ;; ret (f x))%tool.

Definition invoke (i : invocation) : M response :=
  match i with
  | ReadDatabasesResource => fmap TextResponse list_databases_resource
  | CallListDatabases => fmap CatalogResponse list_databases
  | CallSearchAustlii q dbs => fmap ItemsResponse (search_austlii q dbs)
  | CallBuildSearchUrl q dbs => fmap TextResponse (lift (build_search_url q dbs))
  | CallSearchWithProgress q dbs => fmap ItemsResponse (search_with_progress q dbs)
  | GetHealth request => fmap HttpResponse (mcp_health request)
  | GetInfo request => fmap HttpResponse (mcp_info request)
  end.

(** The process after a sequence of invocations, one after the other. *)
Definition run (invocations : list invocation) (w : world) : world :=
  fold_left (fun w i => snd (invoke i w)) invocations w.

End Server.

(* ================================================================== *)
(** * Part II: the vocabulary of the properties *)
(* ================================================================== *)

(** ** Result normalisation *)

Definition scraper := str -> list str -> result (list RawResultRecord).

(** The body of the packaging loop, shared by both search tools. *)
Definition package (item : RawResultRecord) (output : list SearchResultItem)
  : result (list SearchResultItem) :=
  (title_v <- getattr (txt "title") (raw_title item) ;;
   url_v <- getattr (txt "url") (raw_url item) ;;
   metadata_v <- getattr (txt "metadata") (raw_metadata item) ;;
   model <- SearchResultItem_init title_v (PyStr (py_str url_v)) metadata_v ;;
   Ok (output ++ [model]))%result.

(** A well-formed raw record: a text title, a url that is text or a URL
    object, and a metadata that is text or [None]. *)
Definition well_formed (r : RawResultRecord) : Prop :=
  match raw_title r, raw_url r, raw_metadata r with
  | Some (PyStr _), Some (PyStr _ | PyUrl _), Some (PyNone | PyStr _) => True
  | _, _, _ => False
  end.

(** What the normalisation owes for one record: the title verbatim, the
    url as the text of the record's url, the metadata when there is
    one. *)
Definition normalizes (r : RawResultRecord) (it : SearchResultItem) : Prop :=
  raw_title r = Some (PyStr (title it))
  /\ (exists u, raw_url r = Some u /\ url it = py_str u)
  /\ raw_metadata r
     = Some (match metadata it with Some m => PyStr m | None => PyNone end).

(** Events of one invocation. *)
Definition added (before after : world) (events : list action) : Prop :=
  catalog after = catalog before /\ log after = log before ++ events.

(** The scenario of the specification: a URL object for
    [https://example/1] and no metadata. *)
Definition mabo : RawResultRecord :=
  {| raw_title := Some (PyStr (txt "Mabo v Queensland"));
     raw_url := Some (PyUrl {| url_text := txt "https://example/1" |});
     raw_metadata := Some PyNone |}.

Definition start : world := {| catalog := []; log := [] |}.

(** ** Progress events *)

(** The fractions of the progress events of a log, in order. *)
Definition fractions (events : list action) : list float :=
  flat_map (fun a => match a with
                     | ReportProgress p _ _ => [p]
                     | _ => []
                     end) events.

Fixpoint non_decreasing (l : list float) : bool :=
  match l with
  | a :: (b :: _) as rest => PrimFloat.leb a b && non_decreasing rest
  | _ => true
  end.

Definition is_progress (a : action) : bool :=
  match a with
  | ReportProgress _ _ _ => true
  | _ => false
  end.

(** ** The two search tools *)

Definition is_scrape (a : action) : bool :=
  match a with
  | Scrape _ _ => true
  | _ => false
  end.

(** ** Records with a missing field *)

(** A field is missing when the record has no such attribute, or has it
    set to [None]. *)
Definition missing (field : option pyval) : Prop :=
  field = None \/ field = Some PyNone.

(** The errors the packaging loop can raise. *)
Definition packaging_error (e : exn) : Prop :=
  match e with
  | AttributeError _ | ValidationError _ => True
  | _ => False
  end.

(** A record the packaging refuses for its title or url: an attribute is
    absent, or the title is [None]. *)
Definition refused (r : RawResultRecord) : Prop :=
  raw_title r = None \/ raw_url r = None \/ raw_title r = Some PyNone.

(** ** Text *)

(** Text: a sequence of Unicode scalar values.  This is what a [str]
    decoded from JSON holds, and what UTF-8 encodes. *)
Definition valid_text (s : str) : Prop :=
  Forall (fun c => Utf8.is_scalar c = true) s.

(** ** Percent-encoding *)

(** What [quote_plus] writes for one byte: the byte itself when it is
    safe, [+] for a space, [%XX] otherwise. *)
Inductive piece (b : N) : str -> Prop :=
| piece_safe : Urllib.always_safe b = true -> piece b [b]
| piece_plus : b = Urllib.SPACE -> piece b [Urllib.PLUS]
| piece_escape :
    piece b [Urllib.PERCENT; Urllib.hex_upper (b / 16); Urllib.hex_upper (b mod 16)].

(** The characters of a form-encoded name or value. *)
Definition form_char (c : N) : bool :=
  Urllib.always_safe c || (c =? Urllib.PLUS) || (c =? Urllib.PERCENT).

Definition form_allowed (c : N) : bool :=
  Urllib.always_safe c || (c =? Urllib.PLUS).

(** A text laid out piece by piece. *)
Definition pieces (bs : list N) (q : str) : Prop :=
  exists ps, Forall2 piece bs ps /\ q = List.concat ps.

(** ** Decoding a form-encoded text *)

(** A text, the way [quote_plus] writes it. *)
Definition quoted (s q : str) : Prop :=
  Urllib.quote_plus s = Ok q
  /\ Urllib.unquote_plus q = s
  /\ Forall (fun c => form_char c = true) q
  /\ Urllib.chars_ok form_allowed q = true.

(** ** URI characters *)

(** The characters a URI allows in its query. *)
Definition query_allowed (c : N) : bool :=
  Urllib.is_pchar c || (c =? 47) || (c =? Urllib.QUESTION).

(** ** [urlencode] and [parse_qsl] *)

(** One [name=value] item of an encoded query. *)
Definition item_of (kv : str * str) (item : str) : Prop :=
  exists k' v',
    quoted (fst kv) k' /\ quoted (snd kv) v' /\ item = k' ++ Urllib.EQUALS :: v'.

Definition valid_pair (kv : str * str) : Prop :=
  valid_text (fst kv) /\ valid_text (snd kv).

(** The encoded query: what [urlencode] returns for text parameters, and
    what can be read back from it. *)
Record encoded_query (params : list (str * str)) (qs : str) : Prop := {
  encoded_items :
    exists items,
      Forall2 item_of params items /\ qs = Urllib.join [Urllib.AMPERSAND] items;
  encoded_parse : Urllib.parse_qsl qs = params;
  encoded_chars : Urllib.chars_ok query_allowed qs = true;
  encoded_no_hash : Urllib.contains Urllib.HASH qs = false;
  encoded_no_question : Urllib.contains Urllib.QUESTION qs = false
}.

(** ** The search URL *)

(** The parameters of the search, as [build_search_url] lists them. *)
Definition search_params (query : str) (databases : list str) : list (str * str) :=
  [(txt "query", query); (txt "method", txt "boolean"); (txt "meta", txt "/au")]
  ++ map (fun db_code => (txt "mask_path", db_code)) databases.

Definition endpoint : str :=
  txt "https://www.austlii.edu.au/cgi-bin/sinosrch.cgi".

(** The value of a parameter as it stands in the URL, not decoded: the
    first [name=value] item of the query with that name. *)
Definition raw_parameter (name : str) (url : str) : option str :=
  match
    find (fun name_value =>
            str_eqb (fst (Urllib.split_once Urllib.EQUALS name_value)) name)
      (Urllib.split Urllib.AMPERSAND (Urllib.urlsplit_query url))
  with
  | Some name_value => snd (Urllib.split_once Urllib.EQUALS name_value)
  | None => None
  end.

(** ** JSON strings *)

(** The scanner goes on after one character [c] of the string. *)
Definition scanned (c : N) (fuel : nat) (tail : list N) : option (str * list N) :=
  match Json.scanstring fuel tail with
  | Some (text, rest) => Some (c :: text, rest)
  | None => None
  end.

(** ** JSON documents *)

Section JsonInduction.

Variable P : json -> Prop.
Hypothesis on_null : P JNull.
Hypothesis on_bool : forall b, P (JBool b).
Hypothesis on_str : forall s, P (JStr s).
Hypothesis on_list : forall items, Forall P items -> P (JList items).
Hypothesis on_dict :
  forall members, Forall (fun member => P (snd member)) members -> P (JDict members).

(** Induction on a JSON value, with the hypothesis for each of its
    items. *)
Fixpoint json_induction (v : json) : P v :=
  match v with
  | JNull => on_null
  | JBool b => on_bool b
  | JStr s => on_str s
  | JList items =>
      on_list items
        ((fix all (l : list json) : Forall P l :=
            match l with
            | [] => Forall_nil P
            | x :: l' => Forall_cons x (json_induction x) (all l')
            end) items)
  | JDict members =>
      on_dict members
        ((fix all (l : list (str * json))
            : Forall (fun member => P (snd member)) l :=
            match l with
            | [] => Forall_nil _
            | (k, x) :: l' =>
                Forall_cons (P := fun member => P (snd member)) (k, x)
                  (json_induction x) (all l')
            end) members)
  end.

End JsonInduction.

(** A JSON-shaped Python value: its strings are text and the keys of a
    [dict] are distinct. *)
Fixpoint wf_json (v : json) : Prop :=
  match v with
  | JNull | JBool _ => True
  | JStr s => valid_text s
  | JList items => fold_right (fun x rest => wf_json x /\ rest) True items
  | JDict members =>
      NoDup (map fst members)
      /\ fold_right
           (fun member rest =>
              (valid_text (fst member) /\ wf_json (snd member)) /\ rest)
           True members
  end.

(** *** White space and the first character of a value *)

(** The characters a value can start with. *)
Definition value_start (c : N) : Prop := In c [34; 91; 123; 110; 116; 102].

(** *** Reading back an encoded value *)

Definition separator (level : nat) : str := 44 :: Json.newline_indent level.

Definition encode_member (level : nat) (member : str * json) : str :=
  Json.encode_basestring_ascii (fst member) ++ [58; 32]
  ++ Json.iterencode level (snd member).

(** What the main lemma says of one value: with fuel for its encoding,
    the scanner reads the value back and stops where the encoding
    ends. *)
Definition reads_back (v : json) : Prop :=
  wf_json v ->
  forall level rest fuel,
    (List.length (Json.iterencode level v) <= fuel)%nat ->
    Json.scan_once fuel (Json.iterencode level v ++ rest) = Some (v, rest).

(** ** The databases resource *)

(** A catalog of JSON-shaped records. *)
Definition wf_catalog (c : Catalog) : Prop := wf_json (catalog_value c).

Definition sample_catalog : Catalog :=
  [[(txt "code", JStr (txt "au/cases/cth/HCA"));
    (txt "name", JStr (txt "High Court of Australia"));
    (txt "description", JStr (txt "Decisions of the High Court"))];
   [(txt "code", JStr (txt "au/legis/cth/consol_act"));
    (txt "name", JStr (txt "Commonwealth Consolidated Acts"));
    (txt "description", JStr (txt "Acts of the Commonwealth Parliament"))]].

(** ** The packaging loop, record by record *)

(** The model built from one record: the expression of the loop body,
    without the list it is appended to. *)
Definition model_of (item : RawResultRecord) : result SearchResultItem :=
  (title_v <- getattr (txt "title") (raw_title item) ;;
   url_v <- getattr (txt "url") (raw_url item) ;;
   metadata_v <- getattr (txt "metadata") (raw_metadata item) ;;
   SearchResultItem_init title_v (PyStr (py_str url_v)) metadata_v)%result.

(** A map that stops at the first failure. *)
Fixpoint traverse {A B : Type} (f : A -> result B) (l : list A)
  : result (list B) :=
  match l with
  | [] => Ok []
  | x :: rest =>
      match f x with
      | Raise e => Raise e
      | Ok y =>
          match traverse f rest with
          | Ok ys => Ok (y :: ys)
          | Raise e => Raise e
          end
      end
  end.

(** A record the packaging accepts: the three attributes are there, the
    title is text and the metadata is text or [None]; the url is any
    value. *)
Definition accepted (r : RawResultRecord) : Prop :=
  match raw_title r, raw_url r, raw_metadata r with
  | Some (PyStr _), Some _, Some (PyNone | PyStr _) => True
  | _, _, _ => False
  end.

(** ** What a tool adds to the log *)

(** The messages of the progress events of a log, in order. *)
Definition progress_messages (events : list action) : list str :=
  flat_map (fun a => match a with
                     | ReportProgress _ _ message => [message]
                     | _ => []
                     end) events.

(** What a tool added to the log. *)
Definition events_since (before after : world) : list action :=
  skipn (List.length (log before)) (log after).

(** ** Character classes *)

(** A printable ASCII character other than the space. *)
Definition visible (c : N) : bool := (32 <? c) && (c <? 127).

(** A printable ASCII character or a line feed. *)
Definition plain (c : N) : bool := (c =? 10) || ((32 <=? c) && (c <=? 126)).

(** ** Sessions *)

(** The scraper calls an invocation asks for: one for a search, none for
    anything else. *)
Definition scrapes_of (i : invocation) : list action :=
  match i with
  | CallSearchAustlii query databases => [Scrape query databases]
  | CallSearchWithProgress query databases => [Scrape query databases]
  | _ => []
  end.

(** ** Tactics *)

(** Linear arithmetic with division and remainder by constants. *)
Ltac nlia := zify; Z.to_euclidean_division_equations; lia.

(** Decide the comparisons of the goal, dropping the impossible cases. *)
Ltac tests :=
  repeat (match goal with
    | |- context [N.ltb ?a ?b] =>
        destruct (N.ltb_spec a b); try (exfalso; nlia)
    | |- context [N.leb ?a ?b] =>
        destruct (N.leb_spec a b); try (exfalso; nlia)
    | |- context [N.eqb ?a ?b] =>
        destruct (N.eqb_spec a b); try (exfalso; nlia)
    end; cbn [andb orb negb app fst snd]).

(** The keys of a literal dictionary are distinct. *)
Ltac distinct_keys :=
  repeat (constructor;
          [cbn [In]; intros H;
           repeat (destruct H as [H | H]; [vm_compute in H; discriminate H | ]);
           exact H | ]);
  constructor.

(* ================================================================== *)
(** * Part III: properties *)
(* ================================================================== *)

(** ** Result normalisation *)

Lemma search_austlii_unfold (scrape : scraper) query databases w :
  search_austlii scrape query databases w
  = (match scrape query databases with
     | Ok results => for_each results package []
     | Raise e => Raise e
     end,
     {| catalog := catalog w; log := log w ++ [Scrape query databases] |}).
Proof.
  unfold search_austlii, bind, call_scrape, lift.
  destruct (scrape query databases); reflexivity.
Qed.

Lemma package_well_formed r output :
  well_formed r ->
  exists it, package r output = Ok (output ++ [it]) /\ normalizes r it.
Proof.
  destruct r as [[[ | t | ]|] [[ | u | u]|] [[ | m | ]|]]; simpl; try contradiction;
    intros _; unfold package, normalizes; simpl.
  - exists {| title := t; url := u; metadata := None |}; simpl; eauto 6.
  - exists {| title := t; url := u; metadata := Some m |}; simpl; eauto 6.
  - exists {| title := t; url := url_text u; metadata := None |}; simpl; eauto 6.
  - exists {| title := t; url := url_text u; metadata := Some m |}; simpl; eauto 6.
Qed.

Lemma for_each_package_well_formed results :
  Forall well_formed results ->
  forall output,
  exists items,
    for_each results package output = Ok (output ++ items)
    /\ Forall2 normalizes results items.
Proof.
  induction 1 as [ | r results Hr _ IH]; intros output.
  - exists []. rewrite app_nil_r. split; [reflexivity | constructor].
  - destruct (package_well_formed r output Hr) as (it & Hpk & Hn).
    destruct (IH (output ++ [it])) as (items & Hloop & Hall).
    exists (it :: items). simpl. rewrite Hpk, Hloop, <- app_assoc.
    split; [reflexivity | constructor; assumption].
Qed.

(** C2: on well-formed raw records the normalisation of [search_austlii]
    keeps length and order, copies each title, gives each url as the
    text of the record's url (whether it was text or a URL object), and
    keeps the metadata when present, leaving it absent otherwise. *)
Theorem search_austlii_normalizes (scrape : scraper) query databases results w :
  scrape query databases = Ok results ->
  Forall well_formed results ->
  exists items,
    fst (search_austlii scrape query databases w) = Ok items
    /\ List.length items = List.length results
    /\ Forall2 normalizes results items.
Proof.
  intros Hscrape Hwf.
  destruct (for_each_package_well_formed results Hwf []) as (items & Hloop & Hall).
  exists items. rewrite search_austlii_unfold, Hscrape. simpl.
  split; [exact Hloop | split; [ | exact Hall]].
  symmetry. eapply Forall2_length; eassumption.
Qed.

Lemma search_austlii_normalizes_witness :
  exists items,
    fst (search_austlii (fun _ _ => Ok [mabo]) (txt "mabo") [txt "au/cases/cth/HCA"]
           start) = Ok items
    /\ List.length items = List.length [mabo]
    /\ Forall2 normalizes [mabo] items.
Proof.
  apply (search_austlii_normalizes (fun _ _ => Ok [mabo]) (txt "mabo")
           [txt "au/cases/cth/HCA"] [mabo] start).
  - reflexivity.
  - constructor; [exact I | constructor].
Defined.

Example search_austlii_mabo :
  fst (search_austlii (fun _ _ => Ok [mabo]) (txt "mabo") [txt "au/cases/cth/HCA"]
         start)
  = Ok [{| title := txt "Mabo v Queensland"; url := txt "https://example/1";
           metadata := None |}].
Proof. reflexivity. Qed.

(** ** Progress events *)

Lemma search_with_progress_unfold (scrape : scraper) query databases w :
  search_with_progress scrape query databases w
  = let events :=
      [Info (txt "Starting AustLII search...");
       ReportProgress 0.3 1.0 (txt "Scraping");
       Scrape query databases] in
    match scrape query databases with
    | Raise e => (Raise e, {| catalog := catalog w; log := log w ++ events |})
    | Ok results =>
        match for_each results package [] with
        | Raise e =>
            (Raise e,
             {| catalog := catalog w;
                log := log w ++ events
                       ++ [ReportProgress 0.9 1.0 (txt "Packaging")] |})
        | Ok out =>
            (Ok out,
             {| catalog := catalog w;
                log := log w ++ events
                       ++ [ReportProgress 0.9 1.0 (txt "Packaging");
                           ReportProgress 1.0 1.0 (txt "Done")] |})
        end
    end.
Proof.
  unfold search_with_progress, bind, call_scrape, lift, ctx_info,
    ctx_report_progress, emit, ret; simpl.
  fold package.
  destruct (scrape query databases) as [results | e]; simpl.
  - destruct (for_each results package []); simpl;
      repeat (rewrite <- app_assoc; simpl); reflexivity.
  - repeat (rewrite <- app_assoc; simpl); reflexivity.
Qed.

(** C3: a successful [search_with_progress] emits exactly the message
    "Starting AustLII search...", progress 0.3 of 1.0 "Scraping", then
    calls the scraper, emits progress 0.9 of 1.0 "Packaging" and, after
    the packaging, progress 1.0 of 1.0 "Done"; the fractions never
    decrease. *)
Theorem search_with_progress_events (scrape : scraper) query databases w out w' :
  search_with_progress scrape query databases w = (Ok out, w') ->
  let events :=
    [Info (txt "Starting AustLII search...");
     ReportProgress 0.3 1.0 (txt "Scraping");
     Scrape query databases;
     ReportProgress 0.9 1.0 (txt "Packaging");
     ReportProgress 1.0 1.0 (txt "Done")] in
  added w w' events
  /\ (exists results,
        scrape query databases = Ok results
        /\ for_each results package [] = Ok out)
  /\ fractions events = [0.3; 0.9; 1.0]%float
  /\ non_decreasing (fractions events) = true.
Proof.
  intros Hrun events. rewrite search_with_progress_unfold in Hrun. simpl in Hrun.
  destruct (scrape query databases) as [results | e]; [ | discriminate].
  destruct (for_each results package []) as [out0 | e] eqn:Hloop; [ | discriminate].
  injection Hrun as <- <-.
  repeat split.
  - exists results. split; reflexivity || exact Hloop.
Qed.

Lemma search_with_progress_events_witness :
  let events :=
    [Info (txt "Starting AustLII search...");
     ReportProgress 0.3 1.0 (txt "Scraping");
     Scrape (txt "mabo") [txt "au/cases/cth/HCA"];
     ReportProgress 0.9 1.0 (txt "Packaging");
     ReportProgress 1.0 1.0 (txt "Done")] in
  added start {| catalog := []; log := events |} events
  /\ (exists results,
        (fun _ _ => Ok [mabo]) (txt "mabo") [txt "au/cases/cth/HCA"] = Ok results
        /\ for_each results package []
           = Ok [{| title := txt "Mabo v Queensland"; url := txt "https://example/1";
                    metadata := None |}])
  /\ fractions events = [0.3; 0.9; 1.0]%float
  /\ non_decreasing (fractions events) = true.
Proof.
  apply (search_with_progress_events (fun _ _ => Ok [mabo]) (txt "mabo")
           [txt "au/cases/cth/HCA"] start).
  reflexivity.
Defined.

(** When the packaging fails after the scrape, "Packaging" is the last
    event: "Done" comes after the packaging. *)
Lemma search_with_progress_packaging_fails (scrape : scraper) query databases
    results e w :
  scrape query databases = Ok results ->
  for_each results package [] = Raise e ->
  search_with_progress scrape query databases w
  = (Raise e,
     {| catalog := catalog w;
        log := log w ++ [Info (txt "Starting AustLII search...");
                         ReportProgress 0.3 1.0 (txt "Scraping");
                         Scrape query databases;
                         ReportProgress 0.9 1.0 (txt "Packaging")] |}).
Proof.
  intros Hscrape Hloop.
  rewrite search_with_progress_unfold, Hscrape, Hloop. reflexivity.
Qed.

(** C4: when the scrape call fails, [search_with_progress] raises the
    same failure; the events of the invocation are the start message and
    the 0.3 "Scraping" event, which stay emitted, and the call itself: no
    progress event follows "Scraping", neither "Packaging" nor "Done". *)
Theorem search_with_progress_scrape_fails (scrape : scraper) query databases e w :
  scrape query databases = Raise e ->
  exists w',
    search_with_progress scrape query databases w = (Raise e, w')
    /\ added w w' [Info (txt "Starting AustLII search...");
                   ReportProgress 0.3 1.0 (txt "Scraping");
                   Scrape query databases]
    /\ filter is_progress (skipn (List.length (log w)) (log w'))
       = [ReportProgress 0.3 1.0 (txt "Scraping")].
Proof.
  intros Hscrape. rewrite search_with_progress_unfold, Hscrape. simpl.
  eexists. split; [reflexivity | ]. split; [split; reflexivity | ]. simpl.
  rewrite skipn_app, Nat.sub_diag, skipn_all. reflexivity.
Qed.

Lemma search_with_progress_scrape_fails_witness :
  exists w',
    search_with_progress (fun _ _ => Raise (External (txt "timed out")))
      (txt "mabo") [] start
    = (Raise (External (txt "timed out")), w')
    /\ added start w'
         [Info (txt "Starting AustLII search...");
          ReportProgress 0.3 1.0 (txt "Scraping");
          Scrape (txt "mabo") []]
    /\ filter is_progress (skipn (List.length (log start)) (log w'))
       = [ReportProgress 0.3 1.0 (txt "Scraping")].
Proof.
  apply (search_with_progress_scrape_fails
           (fun _ _ => Raise (External (txt "timed out"))) (txt "mabo") []
           (External (txt "timed out")) start).
  reflexivity.
Defined.

(** ** The two search tools *)

(** C7: on the same query, database codes and scraper answer,
    [search_with_progress] returns what [search_austlii] returns (the
    same items, or the same failure); what the two do to the process
    differs only by the context events: the scraper is called alike and
    the catalog is left alone. *)
Theorem search_with_progress_refines (scrape : scraper) query databases w :
  let (r1, w1) := search_with_progress scrape query databases w in
  let (r2, w2) := search_austlii scrape query databases w in
  r1 = r2
  /\ catalog w1 = catalog w2
  /\ filter is_scrape (log w1) = filter is_scrape (log w2).
Proof.
  rewrite search_with_progress_unfold, search_austlii_unfold. simpl.
  destruct (scrape query databases) as [results | e].
  - destruct (for_each results package []); simpl;
      rewrite !filter_app; simpl; rewrite ?app_nil_r; auto.
  - simpl. rewrite !filter_app. auto.
Qed.

(** ** Records with a missing field *)

Lemma package_error r output e :
  package r output = Raise e -> packaging_error e.
Proof.
  unfold package.
  destruct (raw_title r) as [t | ]; simpl; [ | intros [= <-]; exact I].
  destruct (raw_url r) as [u | ]; simpl; [ | intros [= <-]; exact I].
  destruct (raw_metadata r) as [m | ]; simpl; [ | intros [= <-]; exact I].
  unfold SearchResultItem_init.
  destruct (validate_str t), (validate_optional_str m); simpl;
    intros H; try discriminate H; injection H as <-; exact I.
Qed.

Lemma package_refused r output :
  refused r -> exists e, package r output = Raise e.
Proof.
  unfold package.
  intros [Ht | [Hu | Ht]].
  - rewrite Ht. simpl. eauto.
  - rewrite Hu. destruct (raw_title r); simpl; eauto.
  - rewrite Ht. simpl.
    destruct (raw_url r) as [u | ]; simpl; eauto.
    destruct (raw_metadata r) as [m | ]; simpl; eauto.
Qed.

Lemma for_each_package_refused results :
  Exists refused results ->
  forall output,
  exists e, for_each results package output = Raise e /\ packaging_error e.
Proof.
  induction 1 as [r results Hr | r results _ IH]; intros output; simpl.
  - destruct (package_refused r output Hr) as (e & He).
    rewrite He. eauto using package_error.
  - destruct (package r output) as [output' | e] eqn:He.
    + apply IH.
    + eauto using package_error.
Qed.

(** C6, as stated, does not hold: a record whose url is [None] is not
    refused.  [str(None)] is the text "None", which is a valid [str]
    for the model, so the record comes out with that url. *)
Lemma search_austlii_url_none_accepted :
  let record :=
    {| raw_title := Some (PyStr (txt "Mabo v Queensland"));
       raw_url := Some PyNone;
       raw_metadata := Some PyNone |} in
  missing (raw_url record)
  /\ fst (search_austlii (fun _ _ => Ok [record]) (txt "mabo") [] start)
     = Ok [{| title := txt "Mabo v Queensland"; url := txt "None";
              metadata := None |}].
Proof. split; [right | ]; reflexivity. Qed.

(** A record without the attribute fails with [AttributeError], which
    is not a validation error. *)
Lemma search_austlii_attribute_absent :
  fst (search_austlii
         (fun _ _ => Ok [{| raw_title := None;
                            raw_url := Some (PyStr (txt "https://example/1"));
                            raw_metadata := Some PyNone |}])
         (txt "mabo") [] start)
    = Raise (AttributeError (txt "title"))
  /\ fst (search_austlii
            (fun _ _ => Ok [{| raw_title := Some (PyStr (txt "Mabo v Queensland"));
                               raw_url := None;
                               raw_metadata := Some PyNone |}])
            (txt "mabo") [] start)
     = Raise (AttributeError (txt "url")).
Proof. split; reflexivity. Qed.

(** A title that is [None] fails the validation of the model. *)
Lemma search_austlii_title_none :
  fst (search_austlii
         (fun _ _ => Ok [{| raw_title := Some PyNone;
                            raw_url := Some (PyStr (txt "https://example/1"));
                            raw_metadata := Some PyNone |}])
         (txt "mabo") [] start)
  = Raise (ValidationError [txt "title"]).
Proof. reflexivity. Qed.

(** C6 (amended): when a raw record lacks the [title] or the [url]
    attribute, or has [None] for its title, [search_austlii] and
    [search_with_progress] fail with the attribute error or the
    validation error of the packaging; the error reaches the caller and
    no result sequence is returned. *)
Theorem search_refuses_missing_field (scrape : scraper) query databases results w :
  scrape query databases = Ok results ->
  Exists refused results ->
  exists e,
    packaging_error e
    /\ fst (search_austlii scrape query databases w) = Raise e
    /\ fst (search_with_progress scrape query databases w) = Raise e.
Proof.
  intros Hscrape Hbad.
  destruct (for_each_package_refused results Hbad []) as (e & Hloop & He).
  exists e. split; [exact He | ].
  rewrite search_austlii_unfold, search_with_progress_unfold, Hscrape, Hloop.
  split; reflexivity.
Qed.

Lemma search_refuses_missing_field_witness :
  exists e,
    packaging_error e
    /\ fst (search_austlii
              (fun _ _ => Ok [mabo; {| raw_title := Some PyNone;
                                       raw_url := None;
                                       raw_metadata := None |}])
              (txt "mabo") [] start) = Raise e
    /\ fst (search_with_progress
              (fun _ _ => Ok [mabo; {| raw_title := Some PyNone;
                                       raw_url := None;
                                       raw_metadata := None |}])
              (txt "mabo") [] start) = Raise e.
Proof.
  apply (search_refuses_missing_field
           (fun _ _ => Ok [mabo; {| raw_title := Some PyNone;
                                    raw_url := None;
                                    raw_metadata := None |}])
           (txt "mabo") []
           [mabo; {| raw_title := Some PyNone; raw_url := None;
                     raw_metadata := None |}]
           start).
  - reflexivity.
  - right. left. right. left. reflexivity.
Defined.

(** ** The catalog and the diagnostic routes *)

Lemma invoke_keeps_catalog (scrape : scraper) i w :
  catalog (snd (invoke scrape i w)) = catalog w.
Proof.
  destruct i; unfold invoke, fmap, bind, ret; simpl; try reflexivity.
  - rewrite search_austlii_unfold.
    destruct (scrape query databases) as [results | e]; simpl; [ | reflexivity].
    destruct (for_each results package []); reflexivity.
  - unfold lift. destruct (build_search_url query databases); reflexivity.
  - rewrite search_with_progress_unfold. simpl.
    destruct (scrape query databases) as [results | e]; simpl; [ | reflexivity].
    destruct (for_each results package []); reflexivity.
Qed.

Lemma run_keeps_catalog (scrape : scraper) invocations w :
  catalog (run scrape invocations w) = catalog w.
Proof.
  revert w. induction invocations as [ | i invocations IH]; intros w; simpl.
  - reflexivity.
  - unfold run in *. simpl. rewrite IH. apply invoke_keeps_catalog.
Qed.

(** C8: [list_databases] takes no input, never fails and returns the
    whole catalog, in its order; a second call, whatever the process was
    asked in between, returns the same content. *)
Theorem list_databases_stable (scrape : scraper) invocations w :
  let (first, w1) := list_databases w in
  let (second, w2) := list_databases (run scrape invocations w1) in
  first = Ok (catalog w)
  /\ second = first
  /\ w1 = w
  /\ w2 = run scrape invocations w.
Proof.
  simpl. rewrite run_keeps_catalog. auto.
Qed.

(** C9: whatever the request and the state of the process, the health
    route answers [{status: "ok", name: the name of the server,
    transport: "streamable-http"}] and the info route answers its fixed
    payload of message, health path, transport and hint; neither
    changes the process. *)
Theorem diagnostics_fixed (request : Request) (w : world) :
  mcp_health request w
  = (Ok {| status_code := 200;
           content := JDict [(txt "status", JStr (txt "ok"));
                             (txt "name", JStr (txt "Olexi MCP Server"));
                             (txt "transport", JStr (txt "streamable-http"))] |},
     w)
  /\ mcp_info request w
     = (Ok {| status_code := 200;
              content :=
                JDict [(txt "message", JStr (txt "Olexi MCP Streamable HTTP endpoint"));
                       (txt "health", JStr (txt "/mcp/health"));
                       (txt "transport", JStr (txt "streamable-http"));
                       (txt "hint",
                        JStr (txt "Your MCP host should POST to /mcp for the protocol handshake."))] |},
        w).
Proof. split; reflexivity. Qed.

(** ** UTF-8 *)

Lemma is_scalar_spec c :
  Utf8.is_scalar c = true <-> c < 0x110000 /\ (c < 0xD800 \/ 0xDFFF < c).
Proof.
  unfold Utf8.is_scalar, Utf8.is_surrogate.
  tests; split; intros; try discriminate; try reflexivity; lia.
Qed.

(** The decoder reads back what the encoder wrote for one character. *)
Lemma decode_step_encode_char c rest :
  Utf8.is_scalar c = true ->
  exists b0 bs,
    Utf8.encode_char c = Some (b0 :: bs)
    /\ Utf8.decode_step b0 (bs ++ rest) = (c, rest)
    /\ Forall (fun b => b < 256) (b0 :: bs).
Proof.
  intros Hc. apply is_scalar_spec in Hc.
  unfold Utf8.encode_char, Utf8.is_surrogate. tests; do 2 eexists;
  (split; [reflexivity | ]);
  unfold Utf8.decode_step, Utf8.in_range, Utf8.is_continuation,
    Utf8.second_ok, Utf8.second_range, Utf8.in_range; tests;
  (split; [try reflexivity; f_equal; nlia | repeat constructor; nlia]).
Qed.

Lemma encode_from_decode s :
  valid_text s ->
  forall position,
  exists bs,
    Utf8.encode_from position s = Ok bs
    /\ Forall (fun b => b < 256) bs
    /\ forall fuel, (List.length bs <= fuel)%nat -> Utf8.decode_fuel fuel bs = s.
Proof.
  induction 1 as [ | c s Hc _ IH]; intros position.
  - exists []. repeat split; [constructor | ]. intros [ | fuel] _; reflexivity.
  - destruct (IH (S position)) as (tail & Htail & Hbytes & Hdecode).
    destruct (decode_step_encode_char c tail Hc) as (b0 & bs & Henc & Hstep & Hb).
    exists ((b0 :: bs) ++ tail). simpl. rewrite Henc, Htail.
    split; [reflexivity | ].
    split; [apply (proj2 (Forall_app _ (b0 :: bs) tail)); split; assumption | ].
    intros [ | fuel] Hfuel; simpl in Hfuel; [lia | ].
    simpl. rewrite Hstep. f_equal. apply Hdecode.
    rewrite length_app in Hfuel. lia.
Qed.

(** [s.encode('utf-8').decode('utf-8')] gives [s] back. *)
Lemma encode_decode s :
  valid_text s ->
  exists bs,
    Utf8.encode s = Ok bs
    /\ Forall (fun b => b < 256) bs
    /\ Utf8.decode bs = s.
Proof.
  intros Hs. destruct (encode_from_decode s Hs 0%nat) as (bs & Henc & Hb & Hdec).
  exists bs. repeat split; try assumption. apply Hdec. apply Nat.le_refl.
Qed.

Lemma decode_fuel_ascii bs :
  Forall (fun b => b < 128) bs ->
  forall fuel, (List.length bs <= fuel)%nat -> Utf8.decode_fuel fuel bs = bs.
Proof.
  induction 1 as [ | b bs Hb _ IH]; intros [ | fuel] Hfuel; try reflexivity.
  - simpl in Hfuel. lia.
  - simpl. unfold Utf8.decode_step.
    destruct (N.ltb_spec b 128); [ | lia].
    f_equal. apply IH. simpl in Hfuel. lia.
Qed.

(** ** Percent-encoding *)

Lemma hex_value_upper d :
  d < 16 -> Urllib.hex_value (Urllib.hex_upper d) = Some d.
Proof.
  intros Hd. unfold Urllib.hex_upper.
  destruct (N.ltb_spec d 10); unfold Urllib.hex_value, Utf8.in_range; tests;
    f_equal; lia.
Qed.

Lemma always_safe_spec b :
  Urllib.always_safe b = true ->
  65 <= b <= 90 \/ 97 <= b <= 122 \/ 48 <= b <= 57
  \/ b = 95 \/ b = 46 \/ b = 45 \/ b = 126.
Proof.
  unfold Urllib.always_safe, Utf8.in_range. tests; intros; try discriminate; lia.
Qed.

Lemma hex_upper_safe d : d < 16 -> Urllib.always_safe (Urllib.hex_upper d) = true.
Proof.
  intros Hd. unfold Urllib.hex_upper.
  destruct (N.ltb_spec d 10); unfold Urllib.always_safe, Utf8.in_range; tests;
    reflexivity.
Qed.

Lemma hex_upper_hexdig d : d < 16 -> Urllib.is_hexdig (Urllib.hex_upper d) = true.
Proof.
  intros Hd. unfold Urllib.is_hexdig. rewrite hex_value_upper by assumption.
  reflexivity.
Qed.

Lemma unquote_to_bytes_escape h l a b rest :
  Urllib.hex_value h = Some a ->
  Urllib.hex_value l = Some b ->
  Urllib.unquote_to_bytes (Urllib.PERCENT :: h :: l :: rest)
  = (16 * a + b) :: Urllib.unquote_to_bytes rest.
Proof.
  intros Hh Hl. cbn [Urllib.unquote_to_bytes].
  rewrite N.eqb_refl, Hh, Hl. reflexivity.
Qed.

Lemma unquote_to_bytes_plain c rest :
  c <> Urllib.PERCENT ->
  Urllib.unquote_to_bytes (c :: rest) = c :: Urllib.unquote_to_bytes rest.
Proof.
  intros Hc. cbn [Urllib.unquote_to_bytes].
  destruct (N.eqb_spec c Urllib.PERCENT); [contradiction | reflexivity].
Qed.

Lemma piece_form_char b p :
  b < 256 -> piece b p -> Forall (fun c => form_char c = true) p.
Proof.
  intros Hb [Hsafe | -> | ]; repeat constructor; unfold form_char.
  - rewrite Hsafe. reflexivity.
  - rewrite hex_upper_safe; [reflexivity | nlia].
  - rewrite hex_upper_safe; [reflexivity | nlia].
Qed.

Lemma piece_chars_ok b p rest :
  b < 256 -> piece b p ->
  Urllib.chars_ok form_allowed (p ++ rest) = Urllib.chars_ok form_allowed rest.
Proof.
  intros Hb [Hsafe | -> | ]; cbn [app Urllib.chars_ok].
  - destruct (N.eqb_spec b Urllib.PERCENT) as [-> | _]; [discriminate | ].
    unfold form_allowed. rewrite Hsafe. reflexivity.
  - reflexivity.
  - rewrite N.eqb_refl, !hex_upper_hexdig by nlia. reflexivity.
Qed.

Lemma piece_unquote b p rest :
  b < 256 -> piece b p ->
  Urllib.unquote_to_bytes (Urllib.replace_char Urllib.PLUS Urllib.SPACE p ++ rest)
  = b :: Urllib.unquote_to_bytes rest.
Proof.
  intros Hb [Hsafe | -> | ]; unfold Urllib.replace_char; cbn [map app].
  - apply always_safe_spec in Hsafe.
    destruct (N.eqb_spec b Urllib.PLUS) as [-> | _];
      [unfold Urllib.PLUS in Hsafe; lia | ].
    apply unquote_to_bytes_plain. unfold Urllib.PERCENT. lia.
  - reflexivity.
  - change (Urllib.PERCENT =? Urllib.PLUS) with false. cbv iota.
    assert (Hh : forall d, d < 16 -> (Urllib.hex_upper d =? Urllib.PLUS) = false).
    { intros d Hd. pose proof (always_safe_spec _ (hex_upper_safe d Hd)).
      apply N.eqb_neq. unfold Urllib.PLUS. lia. }
    rewrite !Hh by nlia.
    rewrite (unquote_to_bytes_escape _ _ (b / 16) (b mod 16))
      by (apply hex_value_upper; nlia).
    f_equal. nlia.
Qed.

Lemma quoter_piece safe b :
  Forall (fun c => c = Urllib.SPACE) safe ->
  piece b (Urllib.replace_char Urllib.SPACE Urllib.PLUS (Urllib.quoter safe b)).
Proof.
  intros Hsafe. unfold Urllib.quoter.
  destruct (Urllib.always_safe b) eqn:Hb; cbn [orb].
  - cbn [Urllib.replace_char map].
    apply always_safe_spec in Hb as Hb'.
    destruct (N.eqb_spec b Urllib.SPACE) as [-> | _];
      [unfold Urllib.SPACE in Hb'; lia | ].
    constructor. assumption.
  - destruct (Urllib.contains b safe) eqn:Hin.
    + unfold Urllib.contains in Hin. apply existsb_exists in Hin.
      destruct Hin as (c & Hc & Heq). apply N.eqb_eq in Heq. subst c.
      rewrite Forall_forall in Hsafe. apply Hsafe in Hc. subst b.
      apply piece_plus. reflexivity.
    + cbn [Urllib.replace_char map].
      change (Urllib.PERCENT =? Urllib.SPACE) with false. cbv iota.
      assert (Hh : forall d, (Urllib.hex_upper d =? Urllib.SPACE) = false).
      { intros d. apply N.eqb_neq. unfold Urllib.hex_upper, Urllib.SPACE.
        destruct (d <? 10); nlia. }
      rewrite !Hh. apply piece_escape.
Qed.

Lemma replace_char_app old new a b :
  Urllib.replace_char old new (a ++ b)
  = Urllib.replace_char old new a ++ Urllib.replace_char old new b.
Proof. apply map_app. Qed.

Lemma replace_char_flat_map old new (g : N -> str) l :
  Urllib.replace_char old new (flat_map g l)
  = flat_map (fun b => Urllib.replace_char old new (g b)) l.
Proof.
  unfold Urllib.replace_char.
  induction l as [ | b l IH]; simpl; [reflexivity | ].
  rewrite map_app, IH. reflexivity.
Qed.

Lemma flat_map_pieces (g : N -> str) bs :
  (forall b, piece b (g b)) -> pieces bs (flat_map g bs).
Proof.
  intros Hg. exists (map g bs). split.
  - induction bs; constructor; auto.
  - rewrite flat_map_concat_map. reflexivity.
Qed.

Lemma replace_char_absent old new s :
  Urllib.contains old s = false -> Urllib.replace_char old new s = s.
Proof.
  unfold Urllib.contains, Urllib.replace_char.
  induction s as [ | c s IH]; simpl; [reflexivity | ].
  intros H. apply orb_false_iff in H as [Hc Hs].
  rewrite N.eqb_sym, Hc, IH by assumption. reflexivity.
Qed.

Lemma quote_unfold s safe :
  Urllib.quote s safe
  = (bs <- Utf8.encode s ;; Ok (Urllib.quote_from_bytes bs safe))%result.
Proof. destruct s; reflexivity. Qed.

(** [quote_plus] lays the UTF-8 bytes of a text out piece by piece. *)
Lemma quote_plus_pieces s :
  valid_text s ->
  exists bs q,
    Utf8.encode s = Ok bs
    /\ Forall (fun b => b < 256) bs
    /\ Utf8.decode bs = s
    /\ Urllib.quote_plus s = Ok q
    /\ pieces bs q.
Proof.
  intros Hs. destruct (encode_decode s Hs) as (bs & Henc & Hb & Hdec).
  unfold Urllib.quote_plus.
  destruct (negb (Urllib.contains Urllib.SPACE s)); rewrite quote_unfold, Henc;
    cbn [rbind]; eexists bs, _; repeat split; try eassumption; try reflexivity.
  - assert (Hq : forall l, Urllib.contains Urllib.SPACE (Urllib.quote_from_bytes l [])
                           = false).
    { unfold Urllib.quote_from_bytes, Urllib.contains.
      induction l as [ | b l IH]; [reflexivity | ].
      cbn [flat_map]. rewrite existsb_app, IH, orb_false_r.
      unfold Urllib.quoter. cbn [Urllib.contains existsb orb].
      rewrite orb_false_r.
      destruct (Urllib.always_safe b) eqn:E; cbn [existsb].
      - apply always_safe_spec in E. rewrite orb_false_r. apply N.eqb_neq.
        unfold Urllib.SPACE. lia.
      - rewrite !orb_false_r. change (Urllib.SPACE =? Urllib.PERCENT) with false.
        unfold Urllib.hex_upper, Urllib.SPACE.
        destruct (b / 16 <? 10), (b mod 16 <? 10); cbn [orb];
          apply orb_false_iff; split; apply N.eqb_neq; nlia. }
    rewrite <- (replace_char_absent Urllib.SPACE Urllib.PLUS _ (Hq bs)).
    unfold Urllib.quote_from_bytes. rewrite replace_char_flat_map.
    apply flat_map_pieces. intros b. apply quoter_piece. constructor.
  - unfold Urllib.quote_from_bytes. rewrite replace_char_flat_map.
    apply flat_map_pieces. intros b. apply quoter_piece.
    constructor; [reflexivity | constructor].
Qed.

Lemma pieces_form_char bs q :
  Forall (fun b => b < 256) bs -> pieces bs q ->
  Forall (fun c => form_char c = true) q.
Proof.
  intros Hb (ps & Hps & ->). revert Hb.
  induction Hps as [ | b p bs ps Hp _ IH]; intros Hb; simpl; [constructor | ].
  inversion Hb; subst. apply Forall_app. split; eauto using piece_form_char.
Qed.

Lemma pieces_chars_ok bs q :
  Forall (fun b => b < 256) bs -> pieces bs q ->
  Urllib.chars_ok form_allowed q = true.
Proof.
  intros Hb (ps & Hps & ->). revert Hb.
  induction Hps as [ | b p bs ps Hp _ IH]; intros Hb; simpl; [reflexivity | ].
  inversion Hb; subst. rewrite (piece_chars_ok b) by assumption. auto.
Qed.

Lemma pieces_unquote bs q :
  Forall (fun b => b < 256) bs -> pieces bs q ->
  Urllib.unquote_to_bytes (Urllib.replace_char Urllib.PLUS Urllib.SPACE q) = bs.
Proof.
  intros Hb (ps & Hps & ->). revert Hb.
  induction Hps as [ | b p bs ps Hp _ IH]; intros Hb; simpl; [reflexivity | ].
  inversion Hb; subst. rewrite replace_char_app.
  rewrite (piece_unquote b) by assumption. f_equal. auto.
Qed.

(** ** Decoding a form-encoded text *)

Lemma form_char_ascii c : form_char c = true -> c < 128.
Proof.
  unfold form_char. intros H.
  apply orb_true_iff in H as [H | H]; [apply orb_true_iff in H as [H | H] | ].
  - apply always_safe_spec in H. lia.
  - apply N.eqb_eq in H. subst. reflexivity.
  - apply N.eqb_eq in H. subst. reflexivity.
Qed.

Lemma unquote_to_bytes_no_percent s :
  Urllib.contains Urllib.PERCENT s = false -> Urllib.unquote_to_bytes s = s.
Proof.
  unfold Urllib.contains.
  induction s as [ | c s IH]; [reflexivity | ].
  cbn [existsb]. intros H. apply orb_false_iff in H as [Hc Hs].
  rewrite unquote_to_bytes_plain, IH; [reflexivity | assumption | ].
  apply N.eqb_neq in Hc. congruence.
Qed.

Lemma unquote_parts_ascii s :
  Forall (fun c => c < 128) s ->
  forall run, Urllib.unquote_parts s run = Urllib.unquote_run (rev s ++ run).
Proof.
  induction 1 as [ | c s Hc _ IH]; intros run; [reflexivity | ].
  cbn [Urllib.unquote_parts rev].
  destruct (N.ltb_spec c 128); [ | lia].
  rewrite IH, <- app_assoc. reflexivity.
Qed.

(** On ASCII text [unquote] is [unquote_to_bytes] followed by the
    decoding of the bytes. *)
Lemma unquote_ascii s :
  Forall (fun c => c < 128) s ->
  Urllib.unquote s = Utf8.decode (Urllib.unquote_to_bytes s).
Proof.
  intros Hs. unfold Urllib.unquote.
  destruct (Urllib.contains Urllib.PERCENT s) eqn:Hp; cbn [negb].
  - rewrite unquote_parts_ascii, app_nil_r by assumption.
    unfold Urllib.unquote_run.
    destruct (rev s) eqn:Hrev.
    + destruct s as [ | c s]; [discriminate | ].
      apply (f_equal (@List.length N)) in Hrev.
      rewrite length_rev in Hrev. discriminate.
    + rewrite <- Hrev, rev_involutive. reflexivity.
  - rewrite unquote_to_bytes_no_percent by assumption.
    symmetry. apply decode_fuel_ascii; [assumption | apply Nat.le_refl].
Qed.

(** [unquote_plus] undoes [quote_plus]. *)
Lemma quote_plus_quoted s : valid_text s -> exists q, quoted s q.
Proof.
  intros Hs.
  destruct (quote_plus_pieces s Hs) as (bs & q & _ & Hb & Hdec & Hq & Hp).
  exists q. pose proof (pieces_form_char bs q Hb Hp) as Hform.
  repeat split; eauto using pieces_chars_ok.
  unfold Urllib.unquote_plus. rewrite unquote_ascii.
  - rewrite (pieces_unquote bs q) by assumption. exact Hdec.
  - unfold Urllib.replace_char. apply Forall_map.
    eapply Forall_impl; [ | exact Hform]. intros c Hc. simpl.
    apply form_char_ascii in Hc. destruct (c =? Urllib.PLUS); [reflexivity | exact Hc].
Qed.

(** ** Splitting a query string *)

Lemma split_once_absent sep s :
  Urllib.contains sep s = false -> Urllib.split_once sep s = (s, None).
Proof.
  unfold Urllib.contains.
  induction s as [ | c s IH]; [reflexivity | ].
  cbn [existsb Urllib.split_once]. intros H. apply orb_false_iff in H as [Hc Hs].
  rewrite N.eqb_sym, Hc, IH by assumption. reflexivity.
Qed.

Lemma split_once_found sep a b :
  Urllib.contains sep a = false ->
  Urllib.split_once sep (a ++ sep :: b) = (a, Some b).
Proof.
  unfold Urllib.contains.
  induction a as [ | c a IH]; cbn [existsb Urllib.split_once app].
  - rewrite N.eqb_refl. reflexivity.
  - intros H. apply orb_false_iff in H as [Hc Ha].
    rewrite N.eqb_sym, Hc, IH by assumption. reflexivity.
Qed.

Lemma split_absent sep s :
  Urllib.contains sep s = false -> Urllib.split sep s = [s].
Proof.
  unfold Urllib.contains.
  induction s as [ | c s IH]; [reflexivity | ].
  cbn [existsb Urllib.split]. intros H. apply orb_false_iff in H as [Hc Hs].
  rewrite N.eqb_sym, Hc, IH by assumption. reflexivity.
Qed.

Lemma split_found sep a b :
  Urllib.contains sep a = false ->
  Urllib.split sep (a ++ sep :: b) = a :: Urllib.split sep b.
Proof.
  unfold Urllib.contains.
  induction a as [ | c a IH]; cbn [existsb Urllib.split app].
  - rewrite N.eqb_refl. reflexivity.
  - intros H. apply orb_false_iff in H as [Hc Ha].
    rewrite N.eqb_sym, Hc, IH by assumption. reflexivity.
Qed.

Lemma split_join sep parts :
  parts <> [] ->
  Forall (fun p => Urllib.contains sep p = false) parts ->
  Urllib.split sep (Urllib.join [sep] parts) = parts.
Proof.
  intros Hne Hparts.
  induction Hparts as [ | p parts Hp Hrest IH]; [contradiction | ].
  destruct parts as [ | p' parts].
  - simpl. apply split_absent. assumption.
  - change (Urllib.join [sep] (p :: p' :: parts))
      with (p ++ sep :: Urllib.join [sep] (p' :: parts)).
    rewrite split_found, IH by (assumption || discriminate). reflexivity.
Qed.

Lemma contains_app c a b :
  Urllib.contains c (a ++ b) = Urllib.contains c a || Urllib.contains c b.
Proof. apply existsb_app. Qed.

(** A form-encoded text holds none of the delimiters of a URL. *)
Lemma form_char_contains c q :
  form_char c = false ->
  Forall (fun c => form_char c = true) q ->
  Urllib.contains c q = false.
Proof.
  intros Hc Hq. unfold Urllib.contains.
  induction Hq as [ | d q Hd _ IH]; [reflexivity | ].
  cbn [existsb]. rewrite IH, orb_false_r.
  apply N.eqb_neq. intros ->. congruence.
Qed.

(** ** URI characters *)

Lemma chars_ok_app_len allowed n :
  forall a b,
    (List.length a <= n)%nat ->
    Urllib.chars_ok allowed a = true ->
    Urllib.chars_ok allowed (a ++ b) = Urllib.chars_ok allowed b.
Proof.
  induction n as [ | n IH]; intros a b Hlen Ha.
  - destruct a; [reflexivity | simpl in Hlen; lia].
  - destruct a as [ | c a]; [reflexivity | ].
    cbn [Urllib.chars_ok app] in *.
    destruct (c =? Urllib.PERCENT).
    + destruct a as [ | h [ | l a]]; try discriminate.
      cbn [app]. apply andb_true_iff in Ha as [Hhl Ha]. rewrite Hhl.
      cbn [andb]. apply IH; [simpl in Hlen; lia | assumption].
    + apply andb_true_iff in Ha as [Hc Ha]. rewrite Hc. cbn [andb].
      apply IH; [simpl in Hlen; lia | assumption].
Qed.

Lemma chars_ok_app allowed a b :
  Urllib.chars_ok allowed a = true ->
  Urllib.chars_ok allowed (a ++ b) = Urllib.chars_ok allowed b.
Proof. apply (chars_ok_app_len allowed (List.length a)). apply Nat.le_refl. Qed.

Lemma chars_ok_weaken_len (allowed allowed' : N -> bool) n :
  (forall c, allowed c = true -> allowed' c = true) ->
  forall s,
    (List.length s <= n)%nat ->
    Urllib.chars_ok allowed s = true ->
    Urllib.chars_ok allowed' s = true.
Proof.
  intros Hsub. induction n as [ | n IH]; intros s Hlen Hs.
  - destruct s; [reflexivity | simpl in Hlen; lia].
  - destruct s as [ | c s]; [reflexivity | ].
    cbn [Urllib.chars_ok] in *.
    destruct (c =? Urllib.PERCENT).
    + destruct s as [ | h [ | l s]]; try discriminate.
      apply andb_true_iff in Hs as [Hhl Hs]. rewrite Hhl. cbn [andb].
      apply IH; [simpl in Hlen; lia | assumption].
    + apply andb_true_iff in Hs as [Hc Hs]. rewrite (Hsub c Hc). cbn [andb].
      apply IH; [simpl in Hlen; lia | assumption].
Qed.

Lemma form_allowed_query c : form_allowed c = true -> query_allowed c = true.
Proof.
  unfold form_allowed. intros H. apply orb_true_iff in H as [H | H].
  - apply always_safe_spec in H.
    unfold query_allowed, Urllib.is_pchar, Urllib.is_unreserved, Urllib.is_alpha,
      Urllib.is_digit, Utf8.in_range.
    tests; reflexivity.
  - apply N.eqb_eq in H. subst. reflexivity.
Qed.

Lemma quoted_query_allowed s q :
  quoted s q -> Urllib.chars_ok query_allowed q = true.
Proof.
  intros (_ & _ & _ & H).
  apply (chars_ok_weaken_len form_allowed query_allowed (List.length q));
    auto using form_allowed_query.
Qed.

(** ** [urlencode] and [parse_qsl] *)

Lemma urlencode_items_quoted params :
  Forall valid_pair params ->
  exists items,
    Urllib.urlencode_items params = Ok items /\ Forall2 item_of params items.
Proof.
  induction 1 as [ | [k v] params [Hk Hv] _ (items & Hitems & Hall)].
  - exists []. split; [reflexivity | constructor].
  - destruct (quote_plus_quoted k Hk) as (k' & Hk').
    destruct (quote_plus_quoted v Hv) as (v' & Hv').
    exists ((k' ++ Urllib.EQUALS :: v') :: items). split.
    + cbn [Urllib.urlencode_items]. destruct Hk' as (-> & _), Hv' as (-> & _).
      cbn [rbind]. rewrite Hitems. reflexivity.
    + constructor; [ | assumption]. exists k', v'. auto.
Qed.

Lemma item_delimiter_free c kv item :
  form_char c = false -> c <> Urllib.EQUALS ->
  item_of kv item -> Urllib.contains c item = false.
Proof.
  intros Hc Hne (k' & v' & (_ & _ & Hk & _) & (_ & _ & Hv & _) & ->).
  rewrite contains_app. cbn [Urllib.contains existsb].
  fold (Urllib.contains c v').
  rewrite !(form_char_contains c) by assumption.
  apply N.eqb_neq in Hne. rewrite Hne. reflexivity.
Qed.

Lemma item_decodes kv item :
  item_of kv item ->
  item <> []
  /\ (let (name, value) := Urllib.split_once Urllib.EQUALS item in
      (Urllib.unquote_plus name,
       Urllib.unquote_plus (match value with Some v => v | None => [] end)))
     = kv.
Proof.
  intros (k' & v' & (_ & Hk & Hkc & _) & (_ & Hv & _) & ->). split.
  - destruct k'; discriminate.
  - rewrite split_once_found by (apply form_char_contains; auto).
    rewrite Hk, Hv. destruct kv; reflexivity.
Qed.

Lemma item_chars_ok kv item :
  item_of kv item -> Urllib.chars_ok query_allowed item = true.
Proof.
  intros (k' & v' & Hk & Hv & ->).
  rewrite chars_ok_app by eauto using quoted_query_allowed.
  cbn [Urllib.chars_ok]. change (Urllib.EQUALS =? Urllib.PERCENT) with false.
  cbv iota. change (query_allowed Urllib.EQUALS) with true.
  eauto using quoted_query_allowed.
Qed.

Lemma contains_join c sep items :
  (c =? sep) = false ->
  Forall (fun i => Urllib.contains c i = false) items ->
  Urllib.contains c (Urllib.join [sep] items) = false.
Proof.
  intros Hsep. induction 1 as [ | i items Hi Hrest IH]; [reflexivity | ].
  destruct items as [ | i' items]; [exact Hi | ].
  change (Urllib.join [sep] (i :: i' :: items))
    with (i ++ sep :: Urllib.join [sep] (i' :: items)).
  rewrite contains_app, Hi. cbn [Urllib.contains existsb orb].
  rewrite Hsep. exact IH.
Qed.

Lemma chars_ok_join items :
  Forall (fun i => Urllib.chars_ok query_allowed i = true) items ->
  Urllib.chars_ok query_allowed (Urllib.join [Urllib.AMPERSAND] items) = true.
Proof.
  induction 1 as [ | i items Hi Hrest IH]; [reflexivity | ].
  destruct items as [ | i' items]; [exact Hi | ].
  change (Urllib.join [Urllib.AMPERSAND] (i :: i' :: items))
    with (i ++ Urllib.AMPERSAND :: Urllib.join [Urllib.AMPERSAND] (i' :: items)).
  rewrite chars_ok_app by assumption. cbn [Urllib.chars_ok].
  change (Urllib.AMPERSAND =? Urllib.PERCENT) with false. cbv iota.
  change (query_allowed Urllib.AMPERSAND) with true. exact IH.
Qed.

Lemma Forall2_right {A B} (R : A -> B -> Prop) (P : B -> Prop) l l' :
  (forall a b, R a b -> P b) -> Forall2 R l l' -> Forall P l'.
Proof. intros HR. induction 1; constructor; eauto. Qed.

Lemma parse_items params items :
  Forall2 item_of params items ->
  flat_map
    (fun name_value =>
       match name_value with
       | [] => []
       | _ =>
           let (name, value) := Urllib.split_once Urllib.EQUALS name_value in
           [(Urllib.unquote_plus name,
             Urllib.unquote_plus (match value with Some v => v | None => [] end))]
       end) items
  = params.
Proof.
  induction 1 as [ | kv item params items Hitem _ IH]; [reflexivity | ].
  cbn [flat_map]. rewrite IH.
  destruct (item_decodes kv item Hitem) as [Hne Hdec].
  destruct item as [ | c item]; [contradiction | ].
  destruct (Urllib.split_once Urllib.EQUALS (c :: item)) as [nm value].
  rewrite Hdec. reflexivity.
Qed.

Lemma urlencode_encoded params :
  params <> [] ->
  Forall valid_pair params ->
  exists qs, Urllib.urlencode params = Ok qs /\ encoded_query params qs.
Proof.
  intros Hne Hvalid.
  destruct (urlencode_items_quoted params Hvalid) as (items & Hitems & Hall).
  exists (Urllib.join [Urllib.AMPERSAND] items).
  unfold Urllib.urlencode. rewrite Hitems. split; [reflexivity | ].
  assert (Hitems_ne : items <> []).
  { destruct Hall; [contradiction | discriminate]. }
  assert (Hamp : Forall (fun i => Urllib.contains Urllib.AMPERSAND i = false) items).
  { eapply Forall2_right; [ | exact Hall]. intros kv item.
    apply item_delimiter_free; [reflexivity | discriminate]. }
  constructor.
  - exists items. auto.
  - unfold Urllib.parse_qsl.
    rewrite split_join by assumption.
    destruct (Urllib.join [Urllib.AMPERSAND] items) eqn:Hjoin.
    + exfalso. destruct Hall as [ | kv item params items Hitem Hrest];
        [contradiction | ].
      destruct (item_decodes kv item Hitem) as [Hitem_ne _].
      destruct items; simpl in Hjoin; [contradiction | ].
      apply app_eq_nil in Hjoin as [? _]. contradiction.
    + apply parse_items. assumption.
  - apply chars_ok_join. eapply Forall2_right; [ | exact Hall].
    intros kv item. apply item_chars_ok.
  - apply contains_join; [reflexivity | ].
    eapply Forall2_right; [ | exact Hall]. intros kv item.
    apply item_delimiter_free; [reflexivity | discriminate].
  - apply contains_join; [reflexivity | ].
    eapply Forall2_right; [ | exact Hall]. intros kv item.
    apply item_delimiter_free; [reflexivity | discriminate].
Qed.

(** ** The search URL *)

Lemma append_loop (databases : list str) :
  forall params,
    fold_left (fun params db_code => params ++ [(txt "mask_path", db_code)])
      databases params
    = params ++ map (fun db_code => (txt "mask_path", db_code)) databases.
Proof.
  induction databases as [ | d databases IH]; intros params; simpl.
  - symmetry. apply app_nil_r.
  - rewrite IH, <- app_assoc. reflexivity.
Qed.

Lemma build_search_url_unfold query databases :
  build_search_url query databases
  = (encoded <- Urllib.urlencode (search_params query databases) ;;
     Ok (endpoint ++ Urllib.QUESTION :: encoded))%result.
Proof.
  unfold build_search_url, search_params. rewrite append_loop.
  destruct (Urllib.urlencode _); reflexivity.
Qed.

Lemma valid_text_check (s : str) :
  forallb Utf8.is_scalar s = true -> valid_text s.
Proof. intros H. apply Forall_forall. apply forallb_forall. exact H. Qed.

Lemma search_params_valid query databases :
  valid_text query -> Forall valid_text databases ->
  Forall valid_pair (search_params query databases).
Proof.
  intros Hq Hdbs. unfold search_params.
  repeat (apply Forall_cons;
          [split; try assumption; apply valid_text_check; reflexivity | ]).
  cbn [app]. apply Forall_map.
  eapply Forall_impl; [ | exact Hdbs]. intros d Hd.
  split; [apply valid_text_check; reflexivity | exact Hd].
Qed.

Lemma urlsplit_query_endpoint qs :
  Urllib.contains Urllib.HASH qs = false ->
  Urllib.urlsplit_query (endpoint ++ Urllib.QUESTION :: qs) = qs.
Proof.
  intros Hhash. unfold Urllib.urlsplit_query.
  rewrite (split_once_absent Urllib.HASH).
  - cbn [fst]. rewrite split_once_found by reflexivity. reflexivity.
  - rewrite contains_app. cbn [Urllib.contains existsb].
    fold (Urllib.contains Urllib.HASH qs). rewrite Hhash. reflexivity.
Qed.

Lemma uri_ok_endpoint qs :
  Urllib.chars_ok query_allowed qs = true ->
  Urllib.uri_ok (endpoint ++ Urllib.QUESTION :: qs) = true.
Proof.
  intros Hqs. unfold Urllib.uri_ok.
  change (endpoint ++ Urllib.QUESTION :: qs)
    with (txt "https" ++ 58 :: 47 :: 47
            :: (txt "www.austlii.edu.au/cgi-bin/sinosrch.cgi"
                ++ Urllib.QUESTION :: qs)).
  rewrite split_once_found by reflexivity.
  cbv iota beta.
  rewrite split_once_found by reflexivity.
  change (Urllib.split_once 47 (txt "www.austlii.edu.au/cgi-bin/sinosrch.cgi"))
    with (txt "www.austlii.edu.au", Some (txt "cgi-bin/sinosrch.cgi")).
  cbv iota beta. fold query_allowed. rewrite Hqs. reflexivity.
Qed.

(** C1: for a query and database codes that are text, [build_search_url]
    returns a URL whose parameters are, in this order, [query] with the
    query, [method] with "boolean", [meta] with "/au" and one
    [mask_path] per database code, in the order given; the URL is
    well-formed, also when there is no database code, in which case it
    has no [mask_path] parameter. *)
Theorem build_search_url_parameters query databases :
  valid_text query ->
  Forall valid_text databases ->
  exists url,
    build_search_url query databases = Ok url
    /\ Urllib.parse_qsl (Urllib.urlsplit_query url)
       = [(txt "query", query); (txt "method", txt "boolean"); (txt "meta", txt "/au")]
         ++ map (fun db_code => (txt "mask_path", db_code)) databases
    /\ Urllib.uri_ok url = true
    /\ (databases = [] ->
        Urllib.parse_qsl (Urllib.urlsplit_query url)
        = [(txt "query", query); (txt "method", txt "boolean");
           (txt "meta", txt "/au")]).
Proof.
  intros Hq Hdbs.
  destruct (urlencode_encoded (search_params query databases)) as (qs & Henc & Hqs).
  - discriminate.
  - apply search_params_valid; assumption.
  - exists (endpoint ++ Urllib.QUESTION :: qs).
    rewrite build_search_url_unfold, Henc.
    destruct Hqs as [_ Hparse Hchars Hhash _].
    rewrite urlsplit_query_endpoint by assumption.
    repeat split.
    + exact Hparse.
    + apply uri_ok_endpoint. exact Hchars.
    + intros ->. exact Hparse.
Qed.

Lemma build_search_url_parameters_witness :
  exists url,
    build_search_url (txt "native title")
      [txt "au/cases/cth/HCA"; txt "au/legis/cth/consol_act"] = Ok url
    /\ Urllib.parse_qsl (Urllib.urlsplit_query url)
       = [(txt "query", txt "native title"); (txt "method", txt "boolean");
          (txt "meta", txt "/au")]
         ++ map (fun db_code => (txt "mask_path", db_code))
              [txt "au/cases/cth/HCA"; txt "au/legis/cth/consol_act"]
    /\ Urllib.uri_ok url = true
    /\ ([txt "au/cases/cth/HCA"; txt "au/legis/cth/consol_act"] = [] ->
        Urllib.parse_qsl (Urllib.urlsplit_query url)
        = [(txt "query", txt "native title"); (txt "method", txt "boolean");
           (txt "meta", txt "/au")]).
Proof.
  apply (build_search_url_parameters (txt "native title")
           [txt "au/cases/cth/HCA"; txt "au/legis/cth/consol_act"]).
  - apply valid_text_check. reflexivity.
  - repeat constructor; apply valid_text_check; reflexivity.
Defined.

(** The scenario of the specification. *)
Example build_search_url_native_title :
  build_search_url (txt "native title")
    [txt "au/cases/cth/HCA"; txt "au/legis/cth/consol_act"]
  = Ok (txt ("https://www.austlii.edu.au/cgi-bin/sinosrch.cgi?query=native+title"
             ++ "&method=boolean&meta=%2Fau&mask_path=au%2Fcases%2Fcth%2FHCA"
             ++ "&mask_path=au%2Flegis%2Fcth%2Fconsol_act")).
Proof. vm_compute. reflexivity. Qed.

(** C1, as stated for every query string, does not hold: a [str] can
    hold a lone surrogate code point, which UTF-8 with strict errors
    refuses; [urlencode] then raises and no URL is returned, with
    database codes or without. *)
Lemma build_search_url_surrogate :
  build_search_url [0xD800] [txt "au/cases/cth/HCA"]
  = Raise (UnicodeEncodeError 0 0xD800)
  /\ build_search_url [0xD800] [] = Raise (UnicodeEncodeError 0 0xD800).
Proof. split; vm_compute; reflexivity. Qed.

Lemma query_round_trip_text query databases :
  valid_text query ->
  Forall valid_text databases ->
  exists url value,
    build_search_url query databases = Ok url
    /\ raw_parameter (txt "query") url = Some value
    /\ Urllib.unquote_plus value = query
    /\ Urllib.quote_plus query = Ok value.
Proof.
  intros Hq Hdbs.
  destruct (urlencode_encoded (search_params query databases)) as (qs & Henc & Hqs).
  - discriminate.
  - apply search_params_valid; assumption.
  - destruct Hqs as [(items & Hitems & ->) _ _ Hhash _].
    unfold search_params in Hitems. cbn [app] in Hitems.
    inversion Hitems as [ | kv item params items' Hitem Hrest]; subst.
    destruct Hitem as (k' & v' & (Hk & _) & (Hvq & Hv & Hvc & _) & ->).
    cbn [fst snd] in *.
    assert (k' = txt "query") as ->
      by (vm_compute in Hk; injection Hk as <-; reflexivity).
    exists (endpoint ++ Urllib.QUESTION
            :: Urllib.join [Urllib.AMPERSAND]
                 ((txt "query" ++ Urllib.EQUALS :: v') :: items')), v'.
    rewrite build_search_url_unfold, Henc. split; [reflexivity | ].
    split; [ | split; [exact Hv | exact Hvq]].
    unfold raw_parameter. rewrite urlsplit_query_endpoint by assumption.
    assert (Hsplit :
      exists others,
        Urllib.split Urllib.AMPERSAND
          (Urllib.join [Urllib.AMPERSAND]
             ((txt "query" ++ Urllib.EQUALS :: v') :: items'))
        = (txt "query" ++ Urllib.EQUALS :: v') :: others).
    { assert (Hamp : Urllib.contains Urllib.AMPERSAND
                       (txt "query" ++ Urllib.EQUALS :: v') = false).
      { rewrite contains_app. cbn [Urllib.contains existsb].
        fold (Urllib.contains Urllib.AMPERSAND v').
        rewrite (form_char_contains Urllib.AMPERSAND v')
          by (reflexivity || assumption).
        reflexivity. }
      destruct items' as [ | i items'].
      - exists []. simpl Urllib.join. apply split_absent. exact Hamp.
      - eexists.
        change (Urllib.join [Urllib.AMPERSAND]
                  ((txt "query" ++ Urllib.EQUALS :: v') :: i :: items'))
          with ((txt "query" ++ Urllib.EQUALS :: v')
                ++ Urllib.AMPERSAND :: Urllib.join [Urllib.AMPERSAND] (i :: items')).
        apply split_found. exact Hamp. }
    destruct Hsplit as (others & ->).
    cbn [find]. rewrite split_once_found by reflexivity.
    cbn [fst snd]. reflexivity.
Qed.

Lemma encode_char_scalar c bs :
  Utf8.encode_char c = Some bs -> Utf8.is_scalar c = true.
Proof.
  unfold Utf8.encode_char, Utf8.is_scalar, Utf8.is_surrogate.
  tests; intros; try discriminate; reflexivity.
Qed.

Lemma encode_from_valid s :
  forall position bs, Utf8.encode_from position s = Ok bs -> valid_text s.
Proof.
  induction s as [ | c s IH]; intros position bs; [constructor | ].
  cbn [Utf8.encode_from].
  destruct (Utf8.encode_char c) as [b | ] eqn:Hc; [ | discriminate].
  destruct (Utf8.encode_from (S position) s) as [tail | e] eqn:Hs;
    [ | discriminate].
  intros _. constructor.
  - eapply encode_char_scalar. exact Hc.
  - eapply IH. exact Hs.
Qed.

(** [quote_plus] only succeeds on text. *)
Lemma quote_plus_valid s q : Urllib.quote_plus s = Ok q -> valid_text s.
Proof.
  unfold Urllib.quote_plus.
  destruct (negb (Urllib.contains Urllib.SPACE s)); rewrite quote_unfold;
    destruct (Utf8.encode s) as [bs | e] eqn:Henc; cbn [rbind];
    intros; try discriminate; eapply encode_from_valid; exact Henc.
Qed.

Lemma urlencode_items_valid params :
  forall items, Urllib.urlencode_items params = Ok items -> Forall valid_pair params.
Proof.
  induction params as [ | [k v] params IH]; intros items; [constructor | ].
  cbn [Urllib.urlencode_items].
  destruct (Urllib.quote_plus k) as [k' | e] eqn:Hk; [ | discriminate].
  destruct (Urllib.quote_plus v) as [v' | e] eqn:Hv; [ | discriminate].
  destruct (Urllib.urlencode_items params) as [l | e]; [ | discriminate].
  cbn [rbind]. intros _. constructor.
  - split; eauto using quote_plus_valid.
  - eapply IH. reflexivity.
Qed.

(** A URL is only returned for text. *)
Lemma build_search_url_valid query databases url :
  build_search_url query databases = Ok url ->
  valid_text query /\ Forall valid_text databases.
Proof.
  rewrite build_search_url_unfold. unfold Urllib.urlencode.
  destruct (Urllib.urlencode_items (search_params query databases))
    as [items | e] eqn:Hitems; [ | discriminate].
  intros _. apply urlencode_items_valid in Hitems.
  unfold search_params in Hitems. cbn [app] in Hitems.
  inversion Hitems as [ | ? ? [_ Hq] Hrest]; subst.
  inversion Hrest as [ | ? ? _ Hrest']; subst.
  inversion Hrest' as [ | ? ? _ Hdbs]; subst.
  split; [exact Hq | ].
  rewrite Forall_map in Hdbs.
  eapply Forall_impl; [ | exact Hdbs]. intros d [_ Hd]. exact Hd.
Qed.

Lemma quote_from_bytes_no_plus l :
  Urllib.contains Urllib.PLUS (Urllib.quote_from_bytes l []) = false.
Proof.
  unfold Urllib.quote_from_bytes, Urllib.contains.
  induction l as [ | b l IH]; [reflexivity | ].
  cbn [flat_map]. rewrite existsb_app, IH, orb_false_r.
  unfold Urllib.quoter. cbn [Urllib.contains existsb orb].
  rewrite orb_false_r.
  destruct (Urllib.always_safe b) eqn:E; cbn [existsb].
  - apply always_safe_spec in E. rewrite orb_false_r. apply N.eqb_neq.
    unfold Urllib.PLUS. lia.
  - rewrite !orb_false_r. change (Urllib.PLUS =? Urllib.PERCENT) with false.
    unfold Urllib.hex_upper, Urllib.PLUS.
    destruct (b / 16 <? 10), (b mod 16 <? 10); cbn [orb];
      apply orb_false_iff; split; apply N.eqb_neq; nlia.
Qed.

(** A [+] of a form-encoded text stands for a space: a text without
    spaces is encoded without [+]. *)
Lemma quote_plus_no_plus s q :
  Urllib.contains Urllib.SPACE s = false ->
  Urllib.quote_plus s = Ok q ->
  Urllib.contains Urllib.PLUS q = false.
Proof.
  intros Hs. unfold Urllib.quote_plus. rewrite Hs. cbn [negb].
  rewrite quote_unfold.
  destruct (Utf8.encode s) as [bs | e]; cbn [rbind]; [ | discriminate].
  intros Hq. assert (q = Urllib.quote_from_bytes bs []) as -> by congruence.
  apply quote_from_bytes_no_plus.
Qed.

(** C5, as stated for percent-decoding, does not hold: [urlencode]
    writes a space of the query as [+], and percent-decoding ([unquote])
    leaves a [+] as it is.  The query "a b" comes back as "a+b". *)
Lemma build_search_url_space_not_percent_decoded :
  exists url value,
    build_search_url (txt "a b") [] = Ok url
    /\ raw_parameter (txt "query") url = Some value
    /\ Urllib.unquote value = txt "a+b"
    /\ Urllib.unquote value <> txt "a b".
Proof.
  exists (txt ("https://www.austlii.edu.au/cgi-bin/sinosrch.cgi?query=a+b"
               ++ "&method=boolean&meta=%2Fau")), (txt "a+b").
  repeat split; try (vm_compute; reflexivity).
  vm_compute. discriminate.
Qed.

(** C5 (amended): whatever the query, decoding the value that the
    [query] parameter has in the URL returned by [build_search_url]
    gives the query back, when the decoding is that of the form encoding
    which [urlencode] writes ([unquote_plus]: it reads [+] as a space
    and undoes [%XX]).  Percent-decoding alone ([unquote]) gives the
    query back when the query holds no space. *)
Theorem build_search_url_query_round_trip query databases url :
  build_search_url query databases = Ok url ->
  exists value,
    raw_parameter (txt "query") url = Some value
    /\ Urllib.unquote_plus value = query
    /\ (Urllib.contains Urllib.SPACE query = false ->
        Urllib.unquote value = query).
Proof.
  intros Hurl.
  destruct (build_search_url_valid query databases url Hurl) as [Hq Hdbs].
  destruct (query_round_trip_text query databases Hq Hdbs)
    as (url' & value & Hurl' & Hraw & Hdecode & Hquote).
  rewrite Hurl in Hurl'. injection Hurl' as <-.
  exists value. split; [assumption | ]. split; [assumption | ].
  intros Hspace.
  pose proof (quote_plus_no_plus query value Hspace Hquote) as Hplus.
  unfold Urllib.unquote_plus in Hdecode.
  rewrite (replace_char_absent Urllib.PLUS Urllib.SPACE value Hplus) in Hdecode.
  exact Hdecode.
Qed.

Lemma build_search_url_query_round_trip_witness :
  exists value,
    raw_parameter (txt "query")
      (txt ("https://www.austlii.edu.au/cgi-bin/sinosrch.cgi?query=a%26b+%22c%22"
            ++ "&method=boolean&meta=%2Fau&mask_path=au%2Fcases%2Fcth%2FHCA"))
    = Some value
    /\ Urllib.unquote_plus value = txt "a&b " ++ 34 :: txt "c" ++ [34]
    /\ (Urllib.contains Urllib.SPACE (txt "a&b " ++ 34 :: txt "c" ++ [34]) = false ->
        Urllib.unquote value = txt "a&b " ++ 34 :: txt "c" ++ [34]).
Proof.
  apply (build_search_url_query_round_trip
           (txt "a&b " ++ 34 :: txt "c" ++ [34]) [txt "au/cases/cth/HCA"]).
  vm_compute. reflexivity.
Defined.

(** Percent-decoding alone ([unquote]) leaves the [+] that stands for a
    space. *)
Example unquote_keeps_plus :
  Urllib.unquote (txt "native+title") = txt "native+title"
  /\ Urllib.unquote_plus (txt "native+title") = txt "native title".
Proof. split; vm_compute; reflexivity. Qed.

(** A query without spaces: its [+] is written [%2B], and both decodings
    give the query back. *)
Example build_search_url_query_without_space :
  build_search_url (txt "a&b+c") []
  = Ok (txt ("https://www.austlii.edu.au/cgi-bin/sinosrch.cgi?query=a%26b%2Bc"
             ++ "&method=boolean&meta=%2Fau"))
  /\ Urllib.unquote (txt "a%26b%2Bc") = txt "a&b+c"
  /\ Urllib.unquote_plus (txt "a%26b%2Bc") = txt "a&b+c".
Proof. repeat split; vm_compute; reflexivity. Qed.

(** ** JSON strings *)

Lemma hex_value_lower d :
  d < 16 -> Urllib.hex_value (Json.hex_lower d) = Some d.
Proof.
  intros Hd. unfold Json.hex_lower.
  destruct (N.ltb_spec d 10); unfold Urllib.hex_value, Utf8.in_range; tests;
    f_equal; lia.
Qed.

Lemma decode_uXXXX_hex4 n rest :
  n < 0x10000 -> Json.decode_uXXXX (Json.hex4 n ++ rest) = Some (n, rest).
Proof.
  intros Hn. unfold Json.hex4, Json.decode_uXXXX. cbn [app].
  rewrite !hex_value_lower by nlia. do 2 f_equal. nlia.
Qed.

Lemma expect_head c rest : Json.expect c (c :: rest) = Some rest.
Proof. unfold Json.expect. rewrite N.eqb_refl. reflexivity. Qed.

Lemma expect_other c d rest : d <> c -> Json.expect c (d :: rest) = None.
Proof.
  intros Hd. unfold Json.expect.
  destruct (N.eqb_spec d c); [contradiction | reflexivity].
Qed.

Lemma scanstring_short fuel esc ch tail :
  Json.backslash esc = Some ch ->
  Json.scanstring (S fuel) (92 :: esc :: tail) = scanned ch fuel tail.
Proof.
  intros Hesc. cbn [Json.scanstring].
  change (92 =? 34) with false. change (92 =? 92) with true. cbv iota.
  destruct (N.eqb_spec esc 117) as [-> | _]; [discriminate | ].
  rewrite Hesc. reflexivity.
Qed.

Lemma scanstring_plain fuel c tail :
  c <> 34 -> c <> 92 -> 32 <= c ->
  Json.scanstring (S fuel) (c :: tail) = scanned c fuel tail.
Proof.
  intros H34 H92 H32. cbn [Json.scanstring].
  destruct (N.eqb_spec c 34); [contradiction | ].
  destruct (N.eqb_spec c 92); [contradiction | ].
  destruct (N.ltb_spec c 32); [lia | reflexivity].
Qed.

Lemma scanstring_u fuel r1 uni r2 :
  Json.decode_uXXXX r1 = Some (uni, r2) ->
  Utf8.in_range 0xD800 0xDBFF uni = false ->
  Json.scanstring (S fuel) (92 :: 117 :: r1) = scanned uni fuel r2.
Proof.
  intros Hu Hrange. cbn [Json.scanstring].
  change (92 =? 34) with false. change (92 =? 92) with true.
  change (117 =? 117) with true. cbv iota.
  rewrite Hu, Hrange. reflexivity.
Qed.

Lemma scanstring_pair fuel r1 hi r3 lo r4 :
  Json.decode_uXXXX r1 = Some (hi, 92 :: 117 :: r3) ->
  Utf8.in_range 0xD800 0xDBFF hi = true ->
  Json.decode_uXXXX r3 = Some (lo, r4) ->
  Utf8.in_range 0xDC00 0xDFFF lo = true ->
  Json.scanstring (S fuel) (92 :: 117 :: r1)
  = scanned (0x10000 + (hi - 0xD800) * 1024 + (lo - 0xDC00)) fuel r4.
Proof.
  intros Hhi Hhigh Hlo Hlow. cbn [Json.scanstring].
  change (92 =? 34) with false. change (92 =? 92) with true.
  change (117 =? 117) with true. cbv iota.
  rewrite Hhi, Hhigh, expect_head. cbv beta iota.
  rewrite expect_head. cbv beta iota.
  rewrite Hlo, Hlow. reflexivity.
Qed.

(** The scanner reads back the escape of one character of a text. *)
Lemma scanstring_escape_char c tail fuel :
  Utf8.is_scalar c = true ->
  Json.scanstring (S fuel) (Json.escape_char c ++ tail) = scanned c fuel tail.
Proof.
  intros Hc. apply is_scalar_spec in Hc. unfold Json.escape_char.
  destruct (N.eqb_spec c 34) as [-> | H34]; [apply scanstring_short; reflexivity | ].
  destruct (N.eqb_spec c 92) as [-> | H92]; [apply scanstring_short; reflexivity | ].
  destruct (N.eqb_spec c 10) as [-> | H10]; [apply scanstring_short; reflexivity | ].
  destruct (N.eqb_spec c 13) as [-> | H13]; [apply scanstring_short; reflexivity | ].
  destruct (N.eqb_spec c 9) as [-> | H9]; [apply scanstring_short; reflexivity | ].
  destruct (N.eqb_spec c 12) as [-> | H12]; [apply scanstring_short; reflexivity | ].
  destruct (N.eqb_spec c 8) as [-> | H8]; [apply scanstring_short; reflexivity | ].
  unfold Utf8.in_range at 1.
  destruct (N.leb_spec 32 c), (N.leb_spec c 126); cbn [andb].
  - apply scanstring_plain; assumption.
  - destruct (N.ltb_spec c 0x10000).
    + apply scanstring_u; [apply decode_uXXXX_hex4; assumption | ].
      unfold Utf8.in_range. tests; reflexivity.
    + set (n := c - 0x10000).
      set (hi := 0xD800 + (n / 1024) mod 1024). set (lo := 0xDC00 + n mod 1024).
      unfold Json.escape_u. rewrite <- !app_assoc. cbn [app].
      rewrite (scanstring_pair fuel _ hi (Json.hex4 lo ++ tail) lo tail).
      * f_equal. subst hi lo n. nlia.
      * apply decode_uXXXX_hex4. subst hi n. nlia.
      * subst hi n. unfold Utf8.in_range. tests; reflexivity.
      * apply decode_uXXXX_hex4. subst lo n. nlia.
      * subst lo n. unfold Utf8.in_range. tests; reflexivity.
  - destruct (N.ltb_spec c 0x10000); [ | lia].
    apply scanstring_u; [apply decode_uXXXX_hex4; lia | ].
    unfold Utf8.in_range. tests; reflexivity.
  - lia.
Qed.

Lemma scanstring_encoded s rest :
  valid_text s ->
  forall fuel,
    (List.length s < fuel)%nat ->
    Json.scanstring fuel (flat_map Json.escape_char s ++ 34 :: rest)
    = Some (s, rest).
Proof.
  induction 1 as [ | c s Hc _ IH]; intros [ | fuel] Hfuel; try (simpl in Hfuel; lia).
  - reflexivity.
  - cbn [flat_map]. rewrite <- app_assoc.
    rewrite scanstring_escape_char by assumption.
    unfold scanned. rewrite IH by (simpl in Hfuel; lia). reflexivity.
Qed.

Lemma escape_char_length c : (1 <= List.length (Json.escape_char c))%nat.
Proof.
  unfold Json.escape_char, Json.escape_u, Json.hex4.
  repeat match goal with
         | |- context [if ?b then _ else _] => destruct b
         end; simpl; lia.
Qed.

Lemma escaped_length s :
  (List.length s <= List.length (flat_map Json.escape_char s))%nat.
Proof.
  induction s as [ | c s IH]; [apply Nat.le_refl | ].
  cbn [flat_map]. rewrite length_app. pose proof (escape_char_length c).
  simpl. lia.
Qed.

(** A string literal, followed by anything, is read back. *)
Lemma scanstring_basestring s rest :
  valid_text s ->
  exists body,
    Json.encode_basestring_ascii s ++ rest = 34 :: body
    /\ Json.scanstring (List.length body) body = Some (s, rest).
Proof.
  intros Hs. exists (flat_map Json.escape_char s ++ 34 :: rest). split.
  - unfold Json.encode_basestring_ascii. cbn [app]. rewrite <- app_assoc.
    reflexivity.
  - apply scanstring_encoded; [assumption | ].
    rewrite length_app. pose proof (escaped_length s). simpl. lia.
Qed.

(** ** JSON documents *)

Lemma wf_json_list items : wf_json (JList items) <-> Forall wf_json items.
Proof.
  cbn [wf_json]. induction items as [ | x items IH]; cbn [fold_right].
  - split; constructor.
  - rewrite IH. split.
    + intros [Hx Hitems]. constructor; assumption.
    + intros H. inversion H; auto.
Qed.

Lemma wf_json_dict members :
  wf_json (JDict members)
  <-> NoDup (map fst members)
      /\ Forall (fun member => valid_text (fst member) /\ wf_json (snd member))
           members.
Proof.
  cbn [wf_json]. apply and_iff_compat_l.
  induction members as [ | m members IH]; cbn [fold_right].
  - split; constructor.
  - rewrite IH. split.
    + intros [Hm Hmembers]. constructor; assumption.
    + intros H. inversion H; auto.
Qed.

(** *** White space and the first character of a value *)

Lemma skip_whitespace_head c rest :
  Json.is_whitespace c = false -> Json.skip_whitespace (c :: rest) = c :: rest.
Proof. intros Hc. cbn [Json.skip_whitespace]. rewrite Hc. reflexivity. Qed.

Lemma skip_whitespace_newline_indent level rest :
  Json.skip_whitespace (Json.newline_indent level ++ rest)
  = Json.skip_whitespace rest.
Proof.
  unfold Json.newline_indent. cbn [app Json.skip_whitespace].
  change (Json.is_whitespace 10) with true. cbv iota.
  induction (2 * level)%nat as [ | n IH]; [reflexivity | ].
  cbn [repeat app Json.skip_whitespace].
  change (Json.is_whitespace 32) with true. cbv iota. exact IH.
Qed.

Lemma value_start_facts c :
  value_start c ->
  Json.is_whitespace c = false /\ c <> 93 /\ c <> 125 /\ c <> 44.
Proof.
  unfold value_start. cbn [In].
  intros [<- | [<- | [<- | [<- | [<- | [<- | []]]]]]];
    repeat split; discriminate.
Qed.

Lemma iterencode_start level v :
  exists c body, Json.iterencode level v = c :: body /\ value_start c.
Proof.
  unfold value_start.
  destruct v as [ | [ | ] | s | [ | x items] | [ | m members]];
    do 2 eexists; (split; [reflexivity | ]); cbn [In]; tauto.
Qed.

Lemma skip_whitespace_value level v rest :
  Json.skip_whitespace (Json.iterencode level v ++ rest)
  = Json.iterencode level v ++ rest.
Proof.
  destruct (iterencode_start level v) as (c & body & -> & Hc).
  apply skip_whitespace_head. apply value_start_facts. assumption.
Qed.

(** *** Dictionaries *)

Lemma str_eqb_eq a b : str_eqb a b = true <-> a = b.
Proof.
  unfold str_eqb. destruct (list_eq_dec N.eq_dec a b); split; congruence.
Qed.

Lemma dict_set_fresh k v d :
  ~ In k (map fst d) -> Json.dict_set k v d = d ++ [(k, v)].
Proof.
  induction d as [ | [k' v'] d IH]; cbn [Json.dict_set map In app fst].
  - reflexivity.
  - intros Hk. destruct (str_eqb k k') eqn:Heq.
    + apply str_eqb_eq in Heq. subst. tauto.
    + rewrite IH by tauto. reflexivity.
Qed.

Lemma dict_of_pairs_distinct members :
  NoDup (map fst members) -> Json.dict_of_pairs members = members.
Proof.
  unfold Json.dict_of_pairs.
  enough (H : forall d,
             NoDup (map fst (d ++ members)) ->
             fold_left (fun d kv => Json.dict_set (fst kv) (snd kv) d) members d
             = d ++ members) by apply (H []).
  induction members as [ | [k v] members IH]; intros d Hd; cbn [fold_left fst snd].
  - symmetry. apply app_nil_r.
  - rewrite dict_set_fresh.
    + rewrite IH, <- app_assoc; [reflexivity | ].
      rewrite <- app_assoc. exact Hd.
    + rewrite map_app in Hd. apply NoDup_remove_2 in Hd.
      rewrite in_app_iff in Hd. tauto.
Qed.

(** *** Reading back an encoded value *)

Lemma iterencode_list level x items :
  Json.iterencode level (JList (x :: items))
  = 91 :: Json.newline_indent (S level)
       ++ Urllib.join (separator (S level))
            (map (Json.iterencode (S level)) (x :: items))
       ++ Json.newline_indent level ++ [93].
Proof. reflexivity. Qed.

Lemma iterencode_dict level m members :
  Json.iterencode level (JDict (m :: members))
  = 123 :: Json.newline_indent (S level)
        ++ Urllib.join (separator (S level))
             (map (encode_member (S level)) (m :: members))
        ++ Json.newline_indent level ++ [125].
Proof. reflexivity. Qed.

Lemma scan_once_string fuel r :
  Json.scan_once (S fuel) (34 :: r)
  = match Json.scanstring (List.length r) r with
    | Some (text, r') => Some (JStr text, r')
    | None => None
    end.
Proof. reflexivity. Qed.

Lemma scan_once_array fuel r :
  Json.scan_once (S fuel) (91 :: r)
  = match Json.expect 93 (Json.skip_whitespace r) with
    | Some r' => Some (JList [], r')
    | None =>
        match Json.array_items fuel (Json.skip_whitespace r) with
        | Some (values, r'') => Some (JList values, r'')
        | None => None
        end
    end.
Proof. reflexivity. Qed.

Lemma scan_once_object fuel r :
  Json.scan_once (S fuel) (123 :: r)
  = match Json.expect 125 (Json.skip_whitespace r) with
    | Some r' => Some (JDict [], r')
    | None =>
        match Json.expect 34 (Json.skip_whitespace r) with
        | Some r' =>
            match Json.object_members fuel r' with
            | Some (pairs, r'') => Some (JDict (Json.dict_of_pairs pairs), r'')
            | None => None
            end
        | None => None
        end
    end.
Proof. reflexivity. Qed.

Lemma array_items_step fuel s :
  Json.array_items (S fuel) s
  = match Json.scan_once fuel s with
    | None => None
    | Some (value, r) =>
        match Json.expect 93 (Json.skip_whitespace r) with
        | Some r' => Some ([value], r')
        | None =>
            match Json.expect 44 (Json.skip_whitespace r) with
            | Some r' =>
                match Json.array_items fuel (Json.skip_whitespace r') with
                | Some (values, r'') => Some (value :: values, r'')
                | None => None
                end
            | None => None
            end
        end
    end.
Proof. reflexivity. Qed.

Lemma object_members_step fuel s :
  Json.object_members (S fuel) s
  = match Json.scanstring (List.length s) s with
    | None => None
    | Some (key, r) =>
        match Json.expect 58 (Json.skip_whitespace r) with
        | None => None
        | Some r' =>
            match Json.scan_once fuel (Json.skip_whitespace r') with
            | None => None
            | Some (value, r'') =>
                match Json.expect 125 (Json.skip_whitespace r'') with
                | Some r3 => Some ([(key, value)], r3)
                | None =>
                    match Json.expect 44 (Json.skip_whitespace r'') with
                    | None => None
                    | Some r3 =>
                        match Json.expect 34 (Json.skip_whitespace r3) with
                        | None => None
                        | Some r4 =>
                            match Json.object_members fuel r4 with
                            | Some (pairs, r5) => Some ((key, value) :: pairs, r5)
                            | None => None
                            end
                        end
                    end
                end
            end
        end
    end.
Proof. reflexivity. Qed.

Lemma skip_whitespace_separator level tail :
  Json.skip_whitespace (separator level ++ tail)
  = 44 :: Json.newline_indent level ++ tail.
Proof. apply skip_whitespace_head. reflexivity. Qed.

Lemma array_items_encoded level items :
  items <> [] ->
  Forall reads_back items ->
  Forall wf_json items ->
  forall rest fuel,
    (List.length (Urllib.join (separator (S level))
                    (map (Json.iterencode (S level)) items)) < fuel)%nat ->
    Json.array_items fuel
      (Urllib.join (separator (S level)) (map (Json.iterencode (S level)) items)
       ++ Json.newline_indent level ++ 93 :: rest)
    = Some (items, rest).
Proof.
  induction items as [ | x items IH]; [contradiction | ].
  intros _ Hread Hwf rest [ | fuel] Hfuel; [lia | ].
  inversion Hread as [ | ? ? Hx Hitems]; subst.
  inversion Hwf as [ | ? ? Hwx Hwitems]; subst.
  rewrite array_items_step.
  destruct items as [ | y items].
  - cbn [map Urllib.join] in *.
    rewrite (Hx Hwx) by lia.
    rewrite skip_whitespace_newline_indent, skip_whitespace_head by reflexivity.
    rewrite expect_head. reflexivity.
  - change (Urllib.join (separator (S level))
              (map (Json.iterencode (S level)) (x :: y :: items)))
      with (Json.iterencode (S level) x
            ++ separator (S level)
            ++ Urllib.join (separator (S level))
                 (map (Json.iterencode (S level)) (y :: items))) in *.
    rewrite !length_app in Hfuel. rewrite <- !app_assoc.
    rewrite (Hx Hwx) by lia.
    rewrite !skip_whitespace_separator.
    rewrite expect_other by discriminate. rewrite expect_head.
    rewrite skip_whitespace_newline_indent.
    destruct (iterencode_start (S level) y) as (c & body & Hy & Hc).
    assert (Hskip :
      forall tail,
        Json.skip_whitespace
          (Urllib.join (separator (S level))
             (map (Json.iterencode (S level)) (y :: items)) ++ tail)
        = Urllib.join (separator (S level))
            (map (Json.iterencode (S level)) (y :: items)) ++ tail).
    { intros tail. cbn [map]. destruct items; cbn [map Urllib.join];
        rewrite <- ?app_assoc; apply skip_whitespace_value. }
    rewrite Hskip, IH; [reflexivity | discriminate | assumption | assumption | ].
    unfold separator in *. cbn [List.length] in Hfuel. lia.
Qed.

Lemma join_start level (encode : json -> str) x items :
  (forall v, exists c body, encode v = c :: body /\ value_start c) ->
  exists c body,
    Urllib.join (separator level) (map encode (x :: items)) = c :: body
    /\ value_start c.
Proof.
  intros Hencode. destruct (Hencode x) as (c & body & Hx & Hc).
  cbn [map]. destruct items as [ | y items]; cbn [map Urllib.join]; rewrite Hx.
  - eauto.
  - cbn [app]. eauto.
Qed.

Lemma skip_whitespace_space tail :
  Json.skip_whitespace (32 :: tail) = Json.skip_whitespace tail.
Proof. reflexivity. Qed.

Lemma object_members_member fuel level k v tail :
  valid_text k -> reads_back v -> wf_json v ->
  (List.length (Json.iterencode level v) <= fuel)%nat ->
  Json.object_members (S fuel)
    (flat_map Json.escape_char k
     ++ 34 :: 58 :: 32 :: Json.iterencode level v ++ tail)
  = match Json.expect 125 (Json.skip_whitespace tail) with
    | Some r3 => Some ([(k, v)], r3)
    | None =>
        match Json.expect 44 (Json.skip_whitespace tail) with
        | None => None
        | Some r3 =>
            match Json.expect 34 (Json.skip_whitespace r3) with
            | None => None
            | Some r4 =>
                match Json.object_members fuel r4 with
                | Some (pairs, r5) => Some ((k, v) :: pairs, r5)
                | None => None
                end
            end
        end
    end.
Proof.
  intros Hk Hv Hwf Hfuel. rewrite object_members_step.
  rewrite scanstring_encoded; [ | assumption | ].
  - rewrite skip_whitespace_head by reflexivity.
    rewrite expect_head, skip_whitespace_space, skip_whitespace_value.
    rewrite (Hv Hwf) by assumption. reflexivity.
  - rewrite length_app. pose proof (escaped_length k). simpl. lia.
Qed.

Lemma encode_member_unfold level k v tail :
  encode_member level (k, v) ++ tail
  = 34 :: flat_map Json.escape_char k
       ++ 34 :: 58 :: 32 :: Json.iterencode level v ++ tail.
Proof.
  unfold encode_member, Json.encode_basestring_ascii. cbn [fst snd app].
  rewrite <- !app_assoc. reflexivity.
Qed.

Lemma object_members_encoded level members :
  members <> [] ->
  Forall (fun member => reads_back (snd member)) members ->
  Forall (fun member => valid_text (fst member) /\ wf_json (snd member)) members ->
  exists body,
    Urllib.join (separator (S level)) (map (encode_member (S level)) members)
    = 34 :: body
    /\ forall rest fuel,
         (List.length body < fuel)%nat ->
         Json.object_members fuel
           (body ++ Json.newline_indent level ++ 125 :: rest)
         = Some (members, rest).
Proof.
  induction members as [ | [k v] members IH]; [contradiction | ].
  intros _ Hread Hwf.
  inversion Hread as [ | ? ? Hv Hmembers]; subst.
  inversion Hwf as [ | ? ? [Hk Hwv] Hwmembers]; subst.
  cbn [fst snd] in *.
  destruct members as [ | m members].
  - eexists. split.
    + cbn [map Urllib.join].
      rewrite <- (app_nil_r (encode_member (S level) (k, v))).
      rewrite encode_member_unfold. reflexivity.
    + intros rest [ | fuel] Hfuel; [lia | ].
      rewrite <- !app_assoc. cbn [app]. rewrite <- !app_assoc. cbn [app].
      rewrite object_members_member; try assumption.
      * rewrite skip_whitespace_newline_indent, skip_whitespace_head by reflexivity.
        rewrite expect_head. reflexivity.
      * repeat (rewrite length_app in Hfuel; simpl in Hfuel). lia.
  - destruct IH as (body' & Hjoin & Hparse);
      [discriminate | assumption | assumption | ].
    eexists. split.
    + change (Urllib.join (separator (S level))
                (map (encode_member (S level)) ((k, v) :: m :: members)))
        with (encode_member (S level) (k, v)
              ++ separator (S level)
              ++ Urllib.join (separator (S level))
                   (map (encode_member (S level)) (m :: members))).
      rewrite Hjoin, encode_member_unfold. reflexivity.
    + intros rest [ | fuel] Hfuel; [lia | ].
      rewrite <- !app_assoc. cbn [app]. rewrite <- !app_assoc.
      rewrite object_members_member; try assumption.
      * rewrite !skip_whitespace_separator.
        rewrite expect_other by discriminate. rewrite expect_head.
        rewrite skip_whitespace_newline_indent.
        cbn [app]. rewrite skip_whitespace_head by reflexivity.
        rewrite expect_head. rewrite Hparse; [reflexivity | ].
        unfold separator in Hfuel.
        repeat (rewrite length_app in Hfuel; simpl in Hfuel). lia.
      * repeat (rewrite length_app in Hfuel; simpl in Hfuel). lia.
Qed.

Lemma skip_whitespace_join level (encode : json -> str) x items tail :
  (forall v, exists c body, encode v = c :: body /\ value_start c) ->
  Json.skip_whitespace
    (Urllib.join (separator level) (map encode (x :: items)) ++ tail)
  = Urllib.join (separator level) (map encode (x :: items)) ++ tail.
Proof.
  intros Hencode.
  destruct (join_start level encode x items Hencode) as (c & body & -> & Hc).
  apply skip_whitespace_head. apply value_start_facts. assumption.
Qed.

(** Every well-formed value is read back from its encoding. *)
Lemma scan_once_iterencode v : reads_back v.
Proof.
  induction v as [ | b | s | items IH | members IH] using json_induction;
    intros Hwf level rest fuel Hfuel.
  - destruct fuel; [simpl in Hfuel; lia | reflexivity].
  - destruct b; (destruct fuel; [simpl in Hfuel; lia | reflexivity]).
  - destruct fuel; [simpl in Hfuel; lia | ].
    cbn [Json.iterencode wf_json] in *.
    destruct (scanstring_basestring s rest Hwf) as (body & -> & Hscan).
    rewrite scan_once_string, Hscan. reflexivity.
  - destruct items as [ | x items].
    { destruct fuel; [simpl in Hfuel; lia | reflexivity]. }
    apply wf_json_list in Hwf.
    rewrite iterencode_list in *.
    destruct fuel; [simpl in Hfuel; lia | ].
    cbn [app]. rewrite scan_once_array.
    rewrite <- !app_assoc. cbn [app].
    rewrite skip_whitespace_newline_indent.
    rewrite skip_whitespace_join by (apply iterencode_start).
    destruct (join_start (S level) (Json.iterencode (S level)) x items
                (iterencode_start (S level))) as (c & body & Hjoin & Hc).
    rewrite Hjoin at 1. cbn [app].
    rewrite expect_other by (apply value_start_facts; assumption).
    rewrite array_items_encoded; try assumption; try discriminate; [reflexivity | ].
    cbn [List.length] in Hfuel. rewrite !length_app in Hfuel.
    cbn [List.length] in Hfuel. lia.
  - destruct members as [ | m members].
    { destruct fuel; [simpl in Hfuel; lia | reflexivity]. }
    apply wf_json_dict in Hwf as [Hkeys Hwf].
    rewrite iterencode_dict in *.
    destruct fuel; [simpl in Hfuel; lia | ].
    cbn [app]. rewrite scan_once_object.
    rewrite <- !app_assoc. cbn [app].
    rewrite skip_whitespace_newline_indent.
    destruct (object_members_encoded level (m :: members))
      as (body & Hjoin & Hparse); try assumption; try discriminate.
    rewrite Hjoin in *. cbn [app].
    rewrite skip_whitespace_head by reflexivity.
    rewrite expect_other by discriminate. rewrite expect_head.
    rewrite Hparse.
    + rewrite dict_of_pairs_distinct by assumption. reflexivity.
    + cbn [List.length] in Hfuel. rewrite !length_app in Hfuel.
      cbn [List.length] in Hfuel. lia.
Qed.

(** [json.loads(json.dumps(v, indent=2))] is [v]. *)
Lemma loads_dumps v : wf_json v -> Json.loads (Json.dumps v) = Ok v.
Proof.
  intros Hwf. unfold Json.loads, Json.dumps.
  destruct (iterencode_start 0 v) as (c & body & Hv & Hc).
  pose proof (skip_whitespace_value 0 v []) as Hskip.
  pose proof (scan_once_iterencode v Hwf 0%nat []
                (S (List.length (Json.iterencode 0 v))) (Nat.le_succ_diag_r _))
    as Hscan.
  rewrite app_nil_r in Hskip, Hscan. rewrite Hskip, Hscan.
  rewrite Hv.
  replace (c =? 0xFEFF) with false; [reflexivity | ].
  symmetry. apply N.eqb_neq. unfold value_start in Hc. cbn [In] in Hc.
  intros ->. repeat (destruct Hc as [Hc | Hc]; try discriminate). exact Hc.
Qed.

(** ** The databases resource *)

(** C10: parsing the text of the [olexi://databases] resource as JSON
    gives the sequence of records that [list_databases] returns, in the
    same order. *)
Theorem databases_resource_round_trip (w : world) :
  wf_catalog (catalog w) ->
  exists text records,
    fst (list_databases_resource w) = Ok text
    /\ fst (list_databases w) = Ok records
    /\ Json.loads text = Ok (catalog_value records).
Proof.
  intros Hwf. exists (Json.dumps (catalog_value (catalog w))), (catalog w).
  repeat split. apply loads_dumps. exact Hwf.
Qed.

Lemma sample_catalog_wf : wf_catalog sample_catalog.
Proof.
  unfold wf_catalog, sample_catalog. cbn [catalog_value map wf_json fold_right fst snd].
  repeat split; try (apply valid_text_check; reflexivity); distinct_keys.
Defined.

Lemma databases_resource_round_trip_witness :
  exists text records,
    fst (list_databases_resource {| catalog := sample_catalog; log := [] |})
    = Ok text
    /\ fst (list_databases {| catalog := sample_catalog; log := [] |}) = Ok records
    /\ Json.loads text = Ok (catalog_value records).
Proof.
  apply (databases_resource_round_trip {| catalog := sample_catalog; log := [] |}).
  exact sample_catalog_wf.
Defined.

(** The text of the resource for a catalog of one record. *)
Example list_databases_resource_text :
  fst (list_databases_resource
         {| catalog := [[(txt "code", JStr (txt "au/cases/cth/HCA"));
                         (txt "name", JStr (txt "High Court"))]];
            log := [] |})
  = Ok ([91; 10] ++ txt "  {" ++ [10]
        ++ txt "    " ++ [34] ++ txt "code" ++ [34] ++ txt ": "
        ++ [34] ++ txt "au/cases/cth/HCA" ++ [34] ++ txt "," ++ [10]
        ++ txt "    " ++ [34] ++ txt "name" ++ [34] ++ txt ": "
        ++ [34] ++ txt "High Court" ++ [34] ++ [10]
        ++ txt "  }" ++ [10; 93]).
Proof. vm_compute. reflexivity. Qed.

(** Outside text: two surrogate code points that stand side by side in
    a [str] are written as two escapes, which the decoder reads as one
    character. *)
Example loads_dumps_surrogates :
  Json.loads (Json.dumps (JStr [0xD83D; 0xDE00])) = Ok (JStr [0x1F600]).
Proof. vm_compute. reflexivity. Qed.

(** ** The packaging loop, record by record *)

Lemma package_model_of item output :
  package item output
  = match model_of item with
    | Ok model => Ok (output ++ [model])
    | Raise e => Raise e
    end.
Proof.
  unfold package, model_of.
  destruct (getattr (txt "title") (raw_title item)); cbn [rbind]; [ | reflexivity].
  destruct (getattr (txt "url") (raw_url item)); cbn [rbind]; [ | reflexivity].
  destruct (getattr (txt "metadata") (raw_metadata item)); cbn [rbind];
    reflexivity.
Qed.

(** The loop is a map that stops at the first failure. *)
Lemma for_each_package_traverse results :
  forall output,
    for_each results package output
    = match traverse model_of results with
      | Ok items => Ok (output ++ items)
      | Raise e => Raise e
      end.
Proof.
  induction results as [ | r results IH]; intros output; cbn [for_each traverse].
  - rewrite app_nil_r. reflexivity.
  - rewrite package_model_of. destruct (model_of r) as [model | e]; [ | reflexivity].
    rewrite IH. destruct (traverse model_of results); [ | reflexivity].
    rewrite <- app_assoc. reflexivity.
Qed.

Lemma model_of_accepted r :
  accepted r -> exists it, model_of r = Ok it /\ normalizes r it.
Proof.
  destruct r as [[[ | t | ]|] [u|] [[ | m | ]|]]; cbn; try contradiction;
    intros _; unfold normalizes; cbn; eexists; (split; [reflexivity | ]); cbn;
    eauto 6.
Qed.

Lemma search_austlii_traverse (scrape : scraper) query databases results w :
  scrape query databases = Ok results ->
  fst (search_austlii scrape query databases w) = traverse model_of results.
Proof.
  intros Hscrape. rewrite search_austlii_unfold, Hscrape. cbn [fst].
  rewrite for_each_package_traverse. destruct (traverse model_of results); reflexivity.
Qed.

Lemma search_with_progress_traverse (scrape : scraper) query databases results w :
  scrape query databases = Ok results ->
  fst (search_with_progress scrape query databases w) = traverse model_of results.
Proof.
  intros Hscrape. rewrite search_with_progress_unfold, Hscrape. cbv zeta.
  rewrite for_each_package_traverse.
  destruct (traverse model_of results); reflexivity.
Qed.

Lemma traverse_first_error good bad rest e :
  Forall accepted good ->
  model_of bad = Raise e ->
  traverse model_of (good ++ bad :: rest) = Raise e.
Proof.
  intros Hgood Hbad. induction Hgood as [ | r good Hr _ IH]; cbn [app traverse].
  - rewrite Hbad. reflexivity.
  - destruct (model_of_accepted r Hr) as (it & -> & _). rewrite IH. reflexivity.
Qed.

(** X2: the first record that cannot be packaged decides the outcome of
    both search tools: they raise its error, whatever the records after
    it are. *)
Theorem search_first_error (scrape : scraper) query databases good bad rest e w :
  scrape query databases = Ok (good ++ bad :: rest) ->
  Forall accepted good ->
  model_of bad = Raise e ->
  fst (search_austlii scrape query databases w) = Raise e
  /\ fst (search_with_progress scrape query databases w) = Raise e.
Proof.
  intros Hscrape Hgood Hbad.
  rewrite (search_austlii_traverse scrape query databases _ w Hscrape).
  rewrite (search_with_progress_traverse scrape query databases _ w Hscrape).
  rewrite (traverse_first_error good bad rest e Hgood Hbad). split; reflexivity.
Qed.

Lemma search_first_error_witness :
  fst (search_austlii
         (fun _ _ => Ok ([mabo]
                         ++ {| raw_title := Some PyNone; raw_url := Some PyNone;
                               raw_metadata := Some PyNone |}
                         :: [{| raw_title := None; raw_url := None;
                                raw_metadata := None |}]))
         (txt "mabo") [] start)
  = Raise (ValidationError [txt "title"])
  /\ fst (search_with_progress
            (fun _ _ => Ok ([mabo]
                            ++ {| raw_title := Some PyNone; raw_url := Some PyNone;
                                  raw_metadata := Some PyNone |}
                            :: [{| raw_title := None; raw_url := None;
                                   raw_metadata := None |}]))
            (txt "mabo") [] start)
     = Raise (ValidationError [txt "title"]).
Proof.
  apply (search_first_error
           (fun _ _ => Ok ([mabo]
                           ++ {| raw_title := Some PyNone; raw_url := Some PyNone;
                                 raw_metadata := Some PyNone |}
                           :: [{| raw_title := None; raw_url := None;
                                  raw_metadata := None |}]))
           (txt "mabo") [] [mabo]
           {| raw_title := Some PyNone; raw_url := Some PyNone;
              raw_metadata := Some PyNone |}
           [{| raw_title := None; raw_url := None; raw_metadata := None |}]).
  - reflexivity.
  - constructor; [exact I | constructor].
  - reflexivity.
Defined.

Lemma model_of_validation_fields r fields :
  model_of r = Raise (ValidationError fields) ->
  fields <> [] /\ incl fields [txt "title"; txt "metadata"].
Proof.
  destruct r as [[[ | t | u]|] [v|] [[ | m | u']|]]; cbn; intros H;
    try discriminate H; injection H as <-;
    (split; [discriminate | ]); intros x Hx; cbn in Hx |- *; tauto.
Qed.

Lemma traverse_validation_fields results fields :
  traverse model_of results = Raise (ValidationError fields) ->
  fields <> [] /\ incl fields [txt "title"; txt "metadata"].
Proof.
  induction results as [ | r results IH]; cbn [traverse]; [discriminate | ].
  destruct (model_of r) as [it | e] eqn:Hr.
  - destruct (traverse model_of results) as [items | e]; [discriminate | ].
    intros [= ->]. apply IH. reflexivity.
  - intros [= ->]. eapply model_of_validation_fields. exact Hr.
Qed.

(** X3: when the scraper returns and a search tool fails validation, the
    error names the title, the metadata, or both, and never the url:
    [str()] makes every url a valid field. *)
Theorem search_validation_never_url (scrape : scraper) query databases results
    fields w :
  scrape query databases = Ok results ->
  fst (search_austlii scrape query databases w) = Raise (ValidationError fields)
  \/ fst (search_with_progress scrape query databases w)
     = Raise (ValidationError fields) ->
  fields <> []
  /\ incl fields [txt "title"; txt "metadata"]
  /\ ~ In (txt "url") fields.
Proof.
  intros Hscrape Hfail.
  rewrite (search_austlii_traverse scrape query databases _ w Hscrape) in Hfail.
  rewrite (search_with_progress_traverse scrape query databases _ w Hscrape) in Hfail.
  assert (H : traverse model_of results = Raise (ValidationError fields)) by tauto.
  destruct (traverse_validation_fields results fields H) as [Hne Hincl].
  repeat split; try assumption.
  intros Hurl. apply Hincl in Hurl. cbn [In] in Hurl.
  destruct Hurl as [Hurl | [Hurl | []]]; vm_compute in Hurl; discriminate Hurl.
Qed.

Lemma search_validation_never_url_witness :
  [txt "title"; txt "metadata"] <> []
  /\ incl [txt "title"; txt "metadata"] [txt "title"; txt "metadata"]
  /\ ~ In (txt "url") [txt "title"; txt "metadata"].
Proof.
  apply (search_validation_never_url
           (fun _ _ => Ok [{| raw_title := Some PyNone; raw_url := Some PyNone;
                              raw_metadata :=
                                Some (PyUrl {| url_text := txt "https://example/1" |}) |}])
           (txt "mabo") []
           [{| raw_title := Some PyNone; raw_url := Some PyNone;
               raw_metadata :=
                 Some (PyUrl {| url_text := txt "https://example/1" |}) |}]
           [txt "title"; txt "metadata"] start).
  - reflexivity.
  - left. reflexivity.
Defined.

(** ** What a search does besides returning *)

Lemma events_since_app w events c :
  events_since w {| catalog := c; log := log w ++ events |} = events.
Proof.
  unfold events_since. cbn [log].
  rewrite skipn_app, Nat.sub_diag, skipn_all. reflexivity.
Qed.

(** X4: a search calls the scraper exactly once, with the query and the
    database codes it was given, whether it then returns or fails: there
    is no second attempt. *)
Theorem search_calls_scraper_once (scrape : scraper) query databases w :
  filter is_scrape
    (events_since w (snd (search_austlii scrape query databases w)))
  = [Scrape query databases]
  /\ filter is_scrape
       (events_since w (snd (search_with_progress scrape query databases w)))
     = [Scrape query databases].
Proof.
  rewrite search_austlii_unfold, search_with_progress_unfold. cbv zeta.
  split.
  - cbn [snd]. rewrite events_since_app. reflexivity.
  - destruct (scrape query databases) as [results | e].
    + destruct (for_each results package []); cbn [snd];
        rewrite events_since_app; reflexivity.
    + cbn [snd]. rewrite events_since_app. reflexivity.
Qed.

Lemma txt_neq (a b : string) :
  str_eqb (txt a) (txt b) = false -> txt a <> txt b.
Proof.
  intros H Heq. rewrite Heq in H. unfold str_eqb in H.
  destruct (list_eq_dec N.eq_dec (txt b) (txt b)); [discriminate | contradiction].
Qed.

(** X5: the progress messages of [search_with_progress] tell how far it
    came: "Packaging" is among them exactly when the scraper returned,
    "Done" exactly when the tool returns its items; "Scraping" always
    comes first and the fractions never decrease. *)
Theorem search_with_progress_checkpoints (scrape : scraper) query databases w :
  let (r, w') := search_with_progress scrape query databases w in
  let messages := progress_messages (events_since w w') in
  (In (txt "Packaging") messages
   <-> exists results, scrape query databases = Ok results)
  /\ (In (txt "Done") messages <-> exists out, r = Ok out)
  /\ hd_error messages = Some (txt "Scraping")
  /\ non_decreasing (fractions (events_since w w')) = true.
Proof.
  rewrite search_with_progress_unfold. cbv zeta.
  pose proof (txt_neq "Scraping" "Packaging" eq_refl) as Hsp.
  pose proof (txt_neq "Scraping" "Done" eq_refl) as Hsd.
  pose proof (txt_neq "Packaging" "Done" eq_refl) as Hpd.
  destruct (scrape query databases) as [results | e].
  - destruct (for_each results package []) as [out | e];
      rewrite events_since_app; cbn [progress_messages flat_map app In hd_error];
      (repeat split; try reflexivity; eauto).
    + intros [H | [H | []]]; contradiction.
    + intros (out & [=]).
  - rewrite events_since_app. cbn [progress_messages flat_map app In hd_error].
    repeat split; try reflexivity.
    + intros [H | []]. contradiction.
    + intros (results & [=]).
    + intros [H | []]. contradiction.
    + intros (out & [=]).
Qed.

(** ** More on the search URL *)

(** What a returned URL is made of. *)
Lemma build_search_url_encoded query databases url :
  build_search_url query databases = Ok url ->
  exists qs,
    url = endpoint ++ Urllib.QUESTION :: qs
    /\ encoded_query (search_params query databases) qs.
Proof.
  intros Hurl.
  destruct (build_search_url_valid query databases url Hurl) as [Hq Hdbs].
  destruct (urlencode_encoded (search_params query databases))
    as (qs & Henc & Hqs).
  - discriminate.
  - apply search_params_valid; assumption.
  - exists qs. rewrite build_search_url_unfold, Henc in Hurl.
    cbn [rbind] in Hurl. injection Hurl as <-. auto.
Qed.

Lemma build_search_url_parse query databases url :
  build_search_url query databases = Ok url ->
  Urllib.parse_qsl (Urllib.urlsplit_query url) = search_params query databases.
Proof.
  intros Hurl.
  destruct (build_search_url_encoded query databases url Hurl)
    as (qs & -> & [_ Hparse _ Hhash _]).
  rewrite urlsplit_query_endpoint by assumption. exact Hparse.
Qed.

(** X6: the URL tells the search: two calls that return the same URL
    were given the same query and the same database codes, in the same
    order. *)
Theorem build_search_url_injective query1 databases1 query2 databases2 url :
  build_search_url query1 databases1 = Ok url ->
  build_search_url query2 databases2 = Ok url ->
  query1 = query2 /\ databases1 = databases2.
Proof.
  intros H1 H2.
  apply build_search_url_parse in H1. apply build_search_url_parse in H2.
  rewrite H1 in H2. unfold search_params in H2. cbn [app] in H2.
  injection H2 as Hq Hdbs. split; [exact Hq | ].
  apply (f_equal (map snd)) in Hdbs. rewrite !map_map in Hdbs.
  cbn [snd] in Hdbs. rewrite !map_id in Hdbs. exact Hdbs.
Qed.

Lemma build_search_url_injective_witness :
  txt "native title" = txt "native title"
  /\ [txt "au/cases/cth/HCA"] = [txt "au/cases/cth/HCA"].
Proof.
  apply (build_search_url_injective
           (txt "native title") [txt "au/cases/cth/HCA"]
           (txt "native title") [txt "au/cases/cth/HCA"]
           (txt ("https://www.austlii.edu.au/cgi-bin/sinosrch.cgi?query=native+title"
                 ++ "&method=boolean&meta=%2Fau&mask_path=au%2Fcases%2Fcth%2FHCA")));
    vm_compute; reflexivity.
Defined.

Lemma form_char_visible c : form_char c = true -> visible c = true.
Proof.
  unfold form_char, visible. intros H.
  apply orb_true_iff in H as [H | H]; [apply orb_true_iff in H as [H | H] | ].
  - apply always_safe_spec in H. tests; reflexivity.
  - apply N.eqb_eq in H. subst. reflexivity.
  - apply N.eqb_eq in H. subst. reflexivity.
Qed.

Lemma Forall_join (P : N -> Prop) (sep : str) parts :
  Forall P sep -> Forall (Forall P) parts -> Forall P (Urllib.join sep parts).
Proof.
  intros Hsep. induction 1 as [ | p parts Hp Hparts IH]; [constructor | ].
  destruct parts as [ | p' parts]; [exact Hp | ].
  change (Urllib.join sep (p :: p' :: parts))
    with (p ++ sep ++ Urllib.join sep (p' :: parts)).
  apply Forall_app. split; [exact Hp | ].
  apply Forall_app. split; [exact Hsep | exact IH].
Qed.

Lemma item_visible kv item :
  item_of kv item -> Forall (fun c => visible c = true) item.
Proof.
  intros (k' & v' & (_ & _ & Hk & _) & (_ & _ & Hv & _) & ->).
  apply Forall_app. split.
  - eapply Forall_impl; [ | exact Hk]. apply form_char_visible.
  - constructor; [reflexivity | ].
    eapply Forall_impl; [ | exact Hv]. apply form_char_visible.
Qed.

(** X7: a returned URL is made of printable ASCII characters and holds
    no space: whatever stands in the query or in a code beyond letters,
    digits and [_.-~] is escaped. *)
Theorem build_search_url_visible query databases url :
  build_search_url query databases = Ok url ->
  Forall (fun c => visible c = true) url.
Proof.
  intros Hurl.
  destruct (build_search_url_encoded query databases url Hurl)
    as (qs & -> & [(items & Hitems & ->) _ _ _ _]).
  apply Forall_app. split.
  - apply Forall_forall. apply forallb_forall. reflexivity.
  - constructor; [reflexivity | ].
    apply Forall_join; [repeat constructor | ].
    eapply Forall2_right; [ | exact Hitems]. apply item_visible.
Qed.

Lemma build_search_url_visible_witness :
  Forall (fun c => visible c = true)
    (txt ("https://www.austlii.edu.au/cgi-bin/sinosrch.cgi?query=%C3%A9+%0A"
          ++ "&method=boolean&meta=%2Fau")).
Proof.
  apply (build_search_url_visible [233; 32; 10] []).
  vm_compute. reflexivity.
Defined.

Lemma encode_char_none c : Utf8.encode_char c = None -> Utf8.is_scalar c = false.
Proof.
  unfold Utf8.encode_char, Utf8.is_scalar, Utf8.is_surrogate.
  tests; intros; try discriminate; reflexivity.
Qed.

Lemma encode_from_error s :
  forall position e,
    Utf8.encode_from position s = Raise e ->
    exists position' c,
      e = UnicodeEncodeError position' c /\ In c s /\ Utf8.is_scalar c = false.
Proof.
  induction s as [ | c s IH]; intros position e; [discriminate | ].
  cbn [Utf8.encode_from].
  destruct (Utf8.encode_char c) as [bs | ] eqn:Hc.
  - destruct (Utf8.encode_from (S position) s) as [tail | e'] eqn:Hs;
      [discriminate | ].
    intros [= <-]. destruct (IH _ _ Hs) as (p & c' & He & Hin & Hsc).
    exists p, c'. cbn [In]. auto.
  - intros [= <-]. exists position, c. cbn [In].
    auto using encode_char_none.
Qed.

Lemma quote_plus_error s e :
  Urllib.quote_plus s = Raise e ->
  exists position c,
    e = UnicodeEncodeError position c /\ In c s /\ Utf8.is_scalar c = false.
Proof.
  unfold Urllib.quote_plus.
  destruct (negb (Urllib.contains Urllib.SPACE s)); rewrite quote_unfold;
    destruct (Utf8.encode s) as [bs | e'] eqn:Henc; cbn [rbind];
    intros H; try discriminate H; injection H as <-;
    eapply encode_from_error; exact Henc.
Qed.

Lemma urlencode_items_error params :
  forall e,
    Urllib.urlencode_items params = Raise e ->
    exists position c kv,
      e = UnicodeEncodeError position c
      /\ Utf8.is_scalar c = false
      /\ In kv params
      /\ (In c (fst kv) \/ In c (snd kv)).
Proof.
  induction params as [ | [k v] params IH]; intros e; [discriminate | ].
  cbn [Urllib.urlencode_items].
  destruct (Urllib.quote_plus k) as [k' | ek] eqn:Hk; cbn [rbind].
  - destruct (Urllib.quote_plus v) as [v' | ev] eqn:Hv; cbn [rbind].
    + destruct (Urllib.urlencode_items params) as [l | el] eqn:Hl; cbn [rbind];
        [discriminate | ].
      intros [= <-]. destruct (IH _ eq_refl) as (p & c & kv & He & Hc & Hin & Hwhere).
      exists p, c, kv. cbn [In]. auto.
    + intros [= <-]. destruct (quote_plus_error v _ Hv) as (p & c & He & Hin & Hc).
      exists p, c, (k, v). cbn [In fst snd]. auto.
  - intros [= <-]. destruct (quote_plus_error k _ Hk) as (p & c & He & Hin & Hc).
    exists p, c, (k, v). cbn [In fst snd]. auto.
Qed.

Lemma txt_scalar (s : string) c :
  forallb Utf8.is_scalar (txt s) = true -> In c (txt s) -> Utf8.is_scalar c = false ->
  False.
Proof.
  intros Hall Hin Hc. rewrite forallb_forall in Hall.
  rewrite (Hall c Hin) in Hc. discriminate.
Qed.

(** X8: [build_search_url] either returns a URL, and then the query and
    the codes are text, or raises [UnicodeEncodeError] for a code point
    of the query or of a code that is not a Unicode scalar value; it
    fails in no other way. *)
Theorem build_search_url_outcome query databases :
  match build_search_url query databases with
  | Ok url => valid_text query /\ Forall valid_text databases
  | Raise e =>
      exists position c,
        e = UnicodeEncodeError position c
        /\ Utf8.is_scalar c = false
        /\ (In c query \/ exists code, In code databases /\ In c code)
  end.
Proof.
  destruct (build_search_url query databases) as [url | e] eqn:Hurl.
  - eapply build_search_url_valid. exact Hurl.
  - rewrite build_search_url_unfold in Hurl. unfold Urllib.urlencode in Hurl.
    destruct (Urllib.urlencode_items (search_params query databases))
      as [items | e'] eqn:Hitems; cbn [rbind] in Hurl; [discriminate | ].
    injection Hurl as <-.
    destruct (urlencode_items_error _ _ Hitems)
      as (p & c & kv & -> & Hc & Hin & Hwhere).
    exists p, c. split; [reflexivity | ]. split; [exact Hc | ].
    unfold search_params in Hin. cbn [app In] in Hin.
    destruct Hin as [<- | [<- | [<- | Hin]]]; cbn [fst snd] in Hwhere.
    + destruct Hwhere as [Hk | Hv]; [ | auto].
      exfalso. eapply (txt_scalar "query"); eauto.
    + exfalso. destruct Hwhere as [Hk | Hv];
        [eapply (txt_scalar "method") | eapply (txt_scalar "boolean")]; eauto.
    + exfalso. destruct Hwhere as [Hk | Hv];
        [eapply (txt_scalar "meta") | eapply (txt_scalar "/au")]; eauto.
    + apply in_map_iff in Hin as (code & <- & Hcode). cbn [fst snd] in Hwhere.
      destruct Hwhere as [Hk | Hv]; [ | eauto].
      exfalso. eapply (txt_scalar "mask_path"); eauto.
Qed.

Lemma urlencode_items_snoc params k v :
  forall items k' v',
    Urllib.urlencode_items params = Ok items ->
    Urllib.quote_plus k = Ok k' ->
    Urllib.quote_plus v = Ok v' ->
    Urllib.urlencode_items (params ++ [(k, v)])
    = Ok (items ++ [k' ++ [Urllib.EQUALS] ++ v']).
Proof.
  induction params as [ | [k0 v0] params IH]; intros items k' v' Hitems Hk Hv.
  - injection Hitems as <-. cbn [app Urllib.urlencode_items].
    rewrite Hk, Hv. reflexivity.
  - cbn [app Urllib.urlencode_items] in *.
    destruct (Urllib.quote_plus k0) as [k0' | ]; cbn [rbind] in *; [ | discriminate].
    destruct (Urllib.quote_plus v0) as [v0' | ]; cbn [rbind] in *; [ | discriminate].
    destruct (Urllib.urlencode_items params) as [l | ] eqn:Hl; cbn [rbind] in *;
      [ | discriminate].
    injection Hitems as <-.
    rewrite (IH l k' v' eq_refl Hk Hv). reflexivity.
Qed.

Lemma urlencode_items_length params :
  forall items,
    Urllib.urlencode_items params = Ok items ->
    List.length items = List.length params.
Proof.
  induction params as [ | [k v] params IH]; intros items.
  - intros [= <-]. reflexivity.
  - cbn [Urllib.urlencode_items].
    destruct (Urllib.quote_plus k); cbn [rbind]; [ | discriminate].
    destruct (Urllib.quote_plus v); cbn [rbind]; [ | discriminate].
    destruct (Urllib.urlencode_items params) as [l | ]; cbn [rbind];
      [ | discriminate].
    intros [= <-]. cbn [List.length]. rewrite (IH l eq_refl). reflexivity.
Qed.

Lemma join_snoc (sep : str) parts x :
  parts <> [] ->
  Urllib.join sep (parts ++ [x]) = Urllib.join sep parts ++ sep ++ x.
Proof.
  induction parts as [ | p parts IH]; [contradiction | ]. intros _.
  destruct parts as [ | p' parts]; [reflexivity | ].
  change (Urllib.join sep ((p :: p' :: parts) ++ [x]))
    with (p ++ sep ++ Urllib.join sep ((p' :: parts) ++ [x])).
  rewrite IH by discriminate.
  change (Urllib.join sep (p :: p' :: parts))
    with (p ++ sep ++ Urllib.join sep (p' :: parts)).
  rewrite <- !app_assoc. reflexivity.
Qed.

(** X9: one more database code at the end of the list adds
    [&mask_path=] and the encoded code at the end of the URL and leaves
    the rest of the URL as it was. *)
Theorem build_search_url_append query databases code url encoded :
  build_search_url query databases = Ok url ->
  Urllib.quote_plus code = Ok encoded ->
  build_search_url query (databases ++ [code])
  = Ok (url ++ txt "&mask_path=" ++ encoded).
Proof.
  intros Hurl Hcode. rewrite build_search_url_unfold in *.
  unfold Urllib.urlencode in *.
  destruct (Urllib.urlencode_items (search_params query databases))
    as [items | e] eqn:Hitems; cbn [rbind] in Hurl; [ | discriminate].
  assert (Hu : url = endpoint ++ Urllib.QUESTION
                     :: Urllib.join [Urllib.AMPERSAND] items) by congruence.
  assert (Hne : items <> []).
  { intros ->. apply urlencode_items_length in Hitems. discriminate Hitems. }
  subst url.
  replace (search_params query (databases ++ [code]))
    with (search_params query databases ++ [(txt "mask_path", code)])
    by (unfold search_params; rewrite map_app, <- app_assoc; reflexivity).
  rewrite (urlencode_items_snoc _ _ _ items (txt "mask_path") encoded Hitems)
    by (assumption || reflexivity).
  cbn [rbind]. rewrite (join_snoc _ _ _ Hne). f_equal.
Qed.

Lemma build_search_url_append_witness :
  build_search_url (txt "native title")
    ([txt "au/cases/cth/HCA"] ++ [txt "au/legis/cth/consol_act"])
  = Ok (txt ("https://www.austlii.edu.au/cgi-bin/sinosrch.cgi?query=native+title"
             ++ "&method=boolean&meta=%2Fau&mask_path=au%2Fcases%2Fcth%2FHCA")
        ++ txt "&mask_path=" ++ txt "au%2Flegis%2Fcth%2Fconsol_act").
Proof.
  apply (build_search_url_append (txt "native title") [txt "au/cases/cth/HCA"]
           (txt "au/legis/cth/consol_act")); vm_compute; reflexivity.
Defined.

(** ** The characters of the databases resource *)

Lemma hex_lower_plain d : d < 16 -> plain (Json.hex_lower d) = true.
Proof.
  intros Hd. unfold Json.hex_lower, plain.
  destruct (N.ltb_spec d 10); tests; reflexivity.
Qed.

Lemma escape_u_plain n : Forall (fun c => plain c = true) (Json.escape_u n).
Proof.
  unfold Json.escape_u, Json.hex4. cbn [app].
  repeat constructor; apply hex_lower_plain; nlia.
Qed.

Lemma escape_char_plain c : Forall (fun c => plain c = true) (Json.escape_char c).
Proof.
  unfold Json.escape_char.
  repeat match goal with
         | |- context [if ?a =? ?b then _ else _] =>
             destruct (a =? b); [repeat constructor | ]
         end.
  unfold Utf8.in_range.
  destruct (N.leb_spec 32 c), (N.leb_spec c 126); cbn [andb].
  - constructor; [ | constructor]. unfold plain. tests; reflexivity.
  - destruct (c <? 65536); [apply escape_u_plain | ].
    apply Forall_app. split; apply escape_u_plain.
  - destruct (c <? 65536); [apply escape_u_plain | ].
    apply Forall_app. split; apply escape_u_plain.
  - destruct (c <? 65536); [apply escape_u_plain | ].
    apply Forall_app. split; apply escape_u_plain.
Qed.

Lemma encode_basestring_ascii_plain s :
  Forall (fun c => plain c = true) (Json.encode_basestring_ascii s).
Proof.
  unfold Json.encode_basestring_ascii.
  apply Forall_app. split; [repeat constructor | ].
  apply Forall_app. split; [ | repeat constructor].
  induction s as [ | c s IH]; cbn [flat_map]; [constructor | ].
  apply Forall_app. split; [apply escape_char_plain | exact IH].
Qed.

Lemma newline_indent_plain level :
  Forall (fun c => plain c = true) (Json.newline_indent level).
Proof.
  unfold Json.newline_indent. constructor; [reflexivity | ].
  induction (2 * level)%nat; cbn [repeat]; constructor; auto.
Qed.

(** Every character that [json.dumps] writes is printable ASCII or a
    line feed. *)
Lemma iterencode_plain v :
  forall level, Forall (fun c => plain c = true) (Json.iterencode level v).
Proof.
  induction v as [ | b | s | items IH | members IH] using json_induction;
    intros level.
  - repeat constructor.
  - destruct b; repeat constructor.
  - apply encode_basestring_ascii_plain.
  - destruct items as [ | x items]; [repeat constructor | ].
    rewrite iterencode_list. constructor; [reflexivity | ].
    apply Forall_app. split; [apply newline_indent_plain | ].
    apply Forall_app. split.
    + apply Forall_join.
      * constructor; [reflexivity | apply newline_indent_plain].
      * apply Forall_map. eapply Forall_impl; [ | exact IH].
        intros v Hv. apply Hv.
    + apply Forall_app. split; [apply newline_indent_plain | repeat constructor].
  - destruct members as [ | m members]; [repeat constructor | ].
    rewrite iterencode_dict. constructor; [reflexivity | ].
    apply Forall_app. split; [apply newline_indent_plain | ].
    apply Forall_app. split.
    + apply Forall_join.
      * constructor; [reflexivity | apply newline_indent_plain].
      * apply Forall_map. eapply Forall_impl; [ | exact IH].
        intros member Hv. unfold encode_member.
        apply Forall_app. split; [apply encode_basestring_ascii_plain | ].
        apply Forall_app. split; [repeat constructor | apply Hv].
    + apply Forall_app. split; [apply newline_indent_plain | repeat constructor].
Qed.

(** X10: whatever the catalog holds, the text of the databases resource
    is made of printable ASCII characters and line feeds: every other
    character of a name or description is written as an escape. *)
Theorem list_databases_resource_plain (w : world) :
  exists text,
    fst (list_databases_resource w) = Ok text
    /\ Forall (fun c => plain c = true) text.
Proof.
  eexists. split; [reflexivity | ]. apply iterencode_plain.
Qed.

(** ** The resource and the catalog *)

Lemma map_JDict_injective (l l' : Catalog) :
  map JDict l = map JDict l' -> l = l'.
Proof.
  revert l'. induction l as [ | d l IH]; intros [ | d' l']; cbn [map]; intros H;
    try discriminate H; [reflexivity | ].
  injection H as Hd Hl. f_equal; auto.
Qed.

(** X11: the text of the databases resource tells the catalog: two
    processes whose catalogs are JSON-shaped and differ serve different
    texts. *)
Theorem list_databases_resource_injective (w1 w2 : world) :
  wf_catalog (catalog w1) ->
  wf_catalog (catalog w2) ->
  fst (list_databases_resource w1) = fst (list_databases_resource w2) ->
  catalog w1 = catalog w2.
Proof.
  intros H1 H2 Htext. cbn [list_databases_resource fst] in Htext.
  assert (Hdumps : Json.dumps (catalog_value (catalog w1))
                   = Json.dumps (catalog_value (catalog w2))) by congruence.
  pose proof (loads_dumps _ H1) as L1. pose proof (loads_dumps _ H2) as L2.
  rewrite Hdumps in L1. rewrite L1 in L2.
  assert (Hv : catalog_value (catalog w1) = catalog_value (catalog w2))
    by congruence.
  unfold catalog_value in Hv.
  apply map_JDict_injective. congruence.
Qed.

Lemma list_databases_resource_injective_witness :
  catalog {| catalog := sample_catalog; log := [] |}
  = catalog {| catalog := sample_catalog; log := [Info (txt "earlier")] |}.
Proof.
  apply (list_databases_resource_injective
           {| catalog := sample_catalog; log := [] |}
           {| catalog := sample_catalog; log := [Info (txt "earlier")] |}).
  - exact sample_catalog_wf.
  - exact sample_catalog_wf.
  - reflexivity.
Defined.

(** ** The scraper over a session *)

Lemma invoke_log (scrape : scraper) i w :
  exists events,
    log (snd (invoke scrape i w)) = log w ++ events
    /\ filter is_scrape events = scrapes_of i.
Proof.
  destruct i; unfold invoke, fmap, bind, ret; cbn [scrapes_of].
  - exists []. cbn. rewrite app_nil_r. auto.
  - exists []. cbn. rewrite app_nil_r. auto.
  - rewrite search_austlii_unfold.
    destruct (scrape query databases) as [results | e];
      [destruct (for_each results package []) | ]; cbn [snd log]; eauto.
  - exists []. unfold lift. destruct (build_search_url query databases); cbn;
      rewrite app_nil_r; auto.
  - rewrite search_with_progress_unfold. cbv zeta.
    destruct (scrape query databases) as [results | e];
      [destruct (for_each results package []) | ]; cbn [snd log]; eauto.
  - exists []. cbn. rewrite app_nil_r. auto.
  - exists []. cbn. rewrite app_nil_r. auto.
Qed.

Lemma run_log (scrape : scraper) invocations :
  forall w,
  exists events,
    log (run scrape invocations w) = log w ++ events
    /\ filter is_scrape events = flat_map scrapes_of invocations.
Proof.
  induction invocations as [ | i invocations IH]; intros w.
  - exists []. cbn. rewrite app_nil_r. auto.
  - destruct (invoke_log scrape i w) as (first & Hfirst & Hscrapes).
    destruct (IH (snd (invoke scrape i w))) as (others & Hothers & Hrest).
    exists (first ++ others). split.
    + unfold run in *. cbn [fold_left]. rewrite Hothers, Hfirst, app_assoc.
      reflexivity.
    + rewrite filter_app, Hscrapes, Hrest. reflexivity.
Qed.

(** X12: over any sequence of invocations the scraper is called once per
    search, in the order of the searches and with their arguments, and
    never for listing the databases, reading the resource, building a
    URL or answering a diagnostic route. *)
Theorem run_calls_scraper_for_searches (scrape : scraper) invocations w :
  filter is_scrape (events_since w (run scrape invocations w))
  = flat_map scrapes_of invocations.
Proof.
  destruct (run_log scrape invocations w) as (events & Hlog & Hscrapes).
  unfold events_since. rewrite Hlog, skipn_app, Nat.sub_diag, skipn_all.
  exact Hscrapes.
Qed.
